(** * urlparse: a shallow embedding of [lib-python/2.7/urlparse.py]

    The module is Python 2.7 (Jython) code: [str] is a byte string,
    [unicode] a sequence of code points, [bytes] is an alias of [str].
    A character is modelled by its ordinal ([N]); a text by the list of
    its characters.  Integers that Python uses as indexes are [Z], with
    Python's rules for negative and out-of-range slice bounds written out.

    Layout: Python primitives, the URL engine (split / unsplit / join),
    the two process-wide caches and the stateful entry points, the
    percent codecs, then the theorems. *)

From Stdlib Require Import ZArith NArith Ascii String.
From stdpp Require Import gmap.

Set Default Proof Using "Type".
Open Scope Z_scope.

(** ** Python values *)

(** A text is the list of the ordinals of its characters. *)
Abbreviation text := (list N).

(** [lit "abc"] is the text of a source literal. *)
Definition lit (s : string) : text :=
  N_of_ascii <$> list_ascii_of_string s.

(** [ch "/"] is the ordinal of a one-character literal. *)
Definition ch (a : ascii) : N := N_of_ascii a.

Arguments lit : simpl never.
Arguments ch : simpl never.

Inductive pytype := TStr | TUnicode.

(** A Python 2 string object: a byte string or a unicode string. *)
Inductive pystring :=
| PStr (b : text)
| PUni (u : text).

Definition type_of (s : pystring) : pytype :=
  match s with PStr _ => TStr | PUni _ => TUnicode end.

Definition chars (s : pystring) : text :=
  match s with PStr b => b | PUni u => u end.

Inductive exn :=
| ValueError (msg : string)
| TypeError (msg : string)
| UnicodeError (msg : string)
| LookupError (msg : string).

Inductive result (A : Type) :=
| Ok (a : A)
| Raise (e : exn).
Arguments Ok {A} a.
Arguments Raise {A} e.

Definition is_ok {A} (r : result A) : bool :=
  match r with Ok _ => true | Raise _ => false end.

Module Py.

(** [len(s)] *)
Definition len (s : text) : Z := Z.of_nat (length s).

(** CPython's normalisation of a slice bound against a length. *)
Definition clamp (n i : Z) : Z :=
  if i <? 0 then Z.max 0 (n + i) else Z.min i n.

(** [s[lo:hi]] *)
Definition slice (s : text) (lo hi : Z) : text :=
  let lo' := clamp (len s) lo in
  let hi' := clamp (len s) hi in
  take (Z.to_nat (hi' - lo')) (drop (Z.to_nat lo') s).

(** [s[lo:]] *)
Definition slice_from (s : text) (lo : Z) : text :=
  drop (Z.to_nat (clamp (len s) lo)) s.

(** [s[:hi]] *)
Definition slice_to (s : text) (hi : Z) : text :=
  take (Z.to_nat (clamp (len s) hi)) s.

(** Offset of the first occurrence of [c]. *)
Fixpoint index (c : N) (s : text) : option nat :=
  match s with
  | [] => None
  | x :: t => if (x =? c)%N then Some 0%nat else S <$> index c t
  end.

(** Offset of the last occurrence of [c]. *)
Fixpoint rindex (c : N) (s : text) : option nat :=
  match s with
  | [] => None
  | x :: t =>
      match rindex c t with
      | Some k => Some (S k)
      | None => if (x =? c)%N then Some 0%nat else None
      end
  end.

(** [s.find(c, start)] for a one-character [c]; [-1] when absent. *)
Definition find (c : N) (s : text) (start : Z) : Z :=
  let st := clamp (len s) start in
  match index c (drop (Z.to_nat st) s) with
  | Some k => st + Z.of_nat k
  | None => -1
  end.

(** [s.rfind(c)] *)
Definition rfind (c : N) (s : text) : Z :=
  match rindex c s with
  | Some k => Z.of_nat k
  | None => -1
  end.

(** [c in s] for a one-character [c]. *)
Definition contains (c : N) (s : text) : bool :=
  existsb (N.eqb c) s.

(** [s.split(c)] for a one-character separator. *)
Fixpoint split (c : N) (s : text) : list text :=
  match s with
  | [] => [[]]
  | x :: t =>
      if (x =? c)%N then [] :: split c t
      else match split c t with
           | p :: r => (x :: p) :: r
           | [] => [[x]]
           end
  end.

(** [s.split(c, 1)], as the pair the callers unpack it into; the
    callers test [c in s] first, so the list has two items. *)
Definition split1 (c : N) (s : text) : text * text :=
  match index c s with
  | Some k => (take k s, drop (S k) s)
  | None => (s, [])
  end.

(** [sep.join(l)] *)
Fixpoint join (sep : text) (l : list text) : text :=
  match l with
  | [] => []
  | [x] => x
  | x :: r => x ++ sep ++ join sep r
  end.

(** [c.lower()] on an ASCII letter; other characters of the texts it
    is applied to (scheme characters) are left alone. *)
Definition lower_char (c : N) : N :=
  if ((65 <=? c) && (c <=? 90))%N then (c + 32)%N else c.

Definition lower (s : text) : text := lower_char <$> s.

(** Equality of texts, [==]. *)
Definition eqb (a b : text) : bool := bool_decide (a = b).

(** [x in l] for a list of texts. *)
Definition mem (x : text) (l : list text) : bool :=
  existsb (eqb x) l.

(** [filter(None, l)]: keeps the non-empty texts. *)
Definition filter_nonempty (l : list text) : list text :=
  List.filter (fun x => negb (eqb x [])) l.

End Py.

(** ** Scheme classification tables *)

Definition uses_relative : list text :=
  lit <$> [""; "ftp"; "http"; "gopher"; "nntp"; "imap";
           "wais"; "file"; "https"; "shttp"; "mms";
           "prospero"; "rtsp"; "rtspu"; "sftp";
           "svn"; "svn+ssh"; "ws"; "wss"]%string.

Definition uses_netloc : list text :=
  lit <$> [""; "ftp"; "http"; "gopher"; "nntp"; "telnet";
           "imap"; "wais"; "file"; "mms"; "https"; "shttp";
           "snews"; "prospero"; "rtsp"; "rtspu"; "rsync";
           "svn"; "svn+ssh"; "sftp"; "nfs"; "git"; "git+ssh";
           "ws"; "wss"]%string.

Definition uses_params : list text :=
  lit <$> [""; "ftp"; "hdl"; "prospero"; "http"; "imap";
           "https"; "shttp"; "rtsp"; "rtspu"; "sip"; "sips";
           "mms"; "sftp"; "tel"]%string.

Definition scheme_chars : text :=
  lit ("abcdefghijklmnopqrstuvwxyz" ++
       "ABCDEFGHIJKLMNOPQRSTUVWXYZ" ++
       "0123456789" ++
       "+-.")%string.

Definition MAX_CACHE_SIZE : Z := 20.

(** ** Result tuples *)

Record SplitResult := mkSplit {
  s_scheme : text; s_netloc : text; s_path : text;
  s_query : text; s_fragment : text }.

Record ParseResult := mkParse {
  scheme : text; netloc : text; path : text;
  params : text; query : text; fragment : text }.

(** ** The URL engine, cache aside *)

Definition _splitparams (url : text) : text * text :=
  if Py.contains (ch "/") url then
    let i := Py.find (ch ";") url (Py.rfind (ch "/") url) in
    if i <? 0 then (url, [])
    else (Py.slice_to url i, Py.slice_from url (i + 1))
  else
    let i := Py.find (ch ";") url 0 in
    (Py.slice_to url i, Py.slice_from url (i + 1)).

Definition _splitnetloc (url : text) (start : Z) : text * text :=
  let delim :=
    fold_left
      (fun delim c =>
         let wdelim := Py.find c url start in
         if wdelim >=? 0 then Z.min delim wdelim else delim)
      (lit "/?#") (Py.len url) in
  (Py.slice url start delim, Py.slice_from url delim).

(** The test of lines 336 and 354:
    ['[' in netloc and ']' not in netloc or ']' in netloc and '[' not in netloc]. *)
Definition unbalanced_brackets (netloc : text) : bool :=
  Py.contains (ch "[") netloc && negb (Py.contains (ch "]") netloc)
  || Py.contains (ch "]") netloc && negb (Py.contains (ch "[") netloc).

(** Lines 334-344 and, word for word again, lines 352-362: what
    [urlsplit] does once the scheme is settled. *)
Definition split_after_scheme (scheme url : text) (allow_fragments : bool)
  : result SplitResult :=
  let 'netloc_url :=
    if Py.eqb (Py.slice_to url 2) (lit "//") then
      let '(netloc, url) := _splitnetloc url 2 in
      if unbalanced_brackets netloc
      then Raise (ValueError "Invalid IPv6 URL")
      else Ok (netloc, url)
    else Ok ([], url) in
  match netloc_url with
  | Raise e => Raise e
  | Ok (netloc, url) =>
      let '(url, fragment) :=
        if allow_fragments && Py.contains (ch "#") url
        then Py.split1 (ch "#") url else (url, []) in
      let '(url, query) :=
        if Py.contains (ch "?") url
        then Py.split1 (ch "?") url else (url, []) in
      Ok (mkSplit scheme netloc url query fragment)
  end.

(** Lines 328-362 of [urlsplit]: the computation on a cache miss. *)
Definition urlsplit_compute (url scheme : text) (allow_fragments : bool)
  : result SplitResult :=
  let i := Py.find (ch ":") url 0 in
  if i >? 0 then
    if Py.eqb (Py.slice_to url i) (lit "http") then
      split_after_scheme (Py.lower (Py.slice_to url i))
                         (Py.slice_from url (i + 1)) allow_fragments
    else if forallb (fun c => Py.contains c scheme_chars) (Py.slice_to url i)
    then split_after_scheme (Py.lower (Py.slice_to url i))
                            (Py.slice_from url (i + 1)) allow_fragments
    else split_after_scheme scheme url allow_fragments
  else split_after_scheme scheme url allow_fragments.

Definition urlunsplit (c : SplitResult) : text :=
  let '(mkSplit scheme netloc url query fragment) := c in
  let url :=
    if negb (Py.eqb netloc [])
       || (negb (Py.eqb scheme []) && Py.mem scheme uses_netloc
           && negb (Py.eqb (Py.slice_to url 2) (lit "//")))
    then
      let url :=
        if negb (Py.eqb url []) && negb (Py.eqb (Py.slice_to url 1) (lit "/"))
        then lit "/" ++ url else url in
      lit "//" ++ netloc ++ url
    else url in
  let url := if negb (Py.eqb scheme []) then scheme ++ lit ":" ++ url else url in
  let url := if negb (Py.eqb query []) then url ++ lit "?" ++ query else url in
  let url := if negb (Py.eqb fragment []) then url ++ lit "#" ++ fragment else url in
  url.

Definition urlunparse (c : ParseResult) : text :=
  let '(mkParse scheme netloc url params query fragment) := c in
  let url := if negb (Py.eqb params []) then url ++ lit ";" ++ params else url in
  urlunsplit (mkSplit scheme netloc url query fragment).

(** Lines 272-277 of [urlparse]: from the split result to the parse result. *)
Definition parse_of_split (r : SplitResult) : ParseResult :=
  let '(mkSplit scheme netloc url query fragment) := r in
  let '(url, params) :=
    if Py.mem scheme uses_params && Py.contains (ch ";") url
    then _splitparams url else (url, []) in
  mkParse scheme netloc url params query fragment.

(** One iteration of the loop of lines 445-456; [resolved_path.pop()]
    raises [IndexError] on the empty list, which the loop swallows. *)
Definition pop (l : list text) : option (list text) :=
  match l with
  | [] => None
  | _ => Some (removelast l)
  end.

Definition resolve_step (resolved_path : list text) (seg : text) : list text :=
  if Py.eqb seg (lit "..") then
    match pop resolved_path with
    | Some l => l
    | None => resolved_path
    end
  else if Py.eqb seg (lit ".") then resolved_path
  else resolved_path ++ [seg].

(** [l[-1]] of a list that the callers know to be non-empty. *)
Definition last_item (l : list text) : text := List.last l [].

(** [segments[1:-1] = filter(None, segments[1:-1])] *)
Definition filter_interior (segments : list text) : list text :=
  match segments with
  | [] => []
  | [x] => [x]
  | x :: r => x :: Py.filter_nonempty (removelast r) ++ [last_item r]
  end.

(** Lines 412-464 of [urljoin]: the merge, once both are parsed. *)
Definition join_parsed (url : text) (b u : ParseResult) : text :=
  let '(mkParse bscheme bnetloc bpath bparams bquery bfragment) := b in
  let '(mkParse scheme netloc path params query fragment) := u in
  if negb (Py.eqb scheme bscheme) || negb (Py.mem scheme uses_relative)
  then url
  else
    if Py.mem scheme uses_netloc && negb (Py.eqb netloc [])
    then urlunparse (mkParse scheme netloc path params query fragment)
    else
      let netloc := if Py.mem scheme uses_netloc then bnetloc else netloc in
      if Py.eqb path [] && Py.eqb params [] then
        let query := if Py.eqb query [] then bquery else query in
        urlunparse (mkParse scheme netloc bpath bparams query fragment)
      else
        let base_parts := Py.split (ch "/") bpath in
        let base_parts :=
          if negb (Py.eqb (last_item base_parts) [])
          then removelast base_parts else base_parts in
        let segments :=
          if Py.eqb (Py.slice_to path 1) (lit "/")
          then Py.split (ch "/") path
          else filter_interior (base_parts ++ Py.split (ch "/") path) in
        let resolved_path := fold_left resolve_step segments [] in
        let resolved_path :=
          if Py.mem (last_item segments) [lit "."; lit ".."]
          then resolved_path ++ [[]] else resolved_path in
        let joined := Py.join (lit "/") resolved_path in
        urlunparse (mkParse scheme netloc
                            (if Py.eqb joined [] then lit "/" else joined)
                            params query fragment).

(** ** Process-wide state: the parse cache and the quoter cache *)

Global Instance pytype_eq_dec : EqDecision pytype.
Proof. solve_decision. Defined.

Global Instance pytype_countable : Countable pytype.
Proof.
  refine (inj_countable'
            (fun t => match t with TStr => false | TUnicode => true end)
            (fun b : bool => if b then TUnicode else TStr) _).
  by intros [].
Defined.

(** [key = url, scheme, allow_fragments, type(url), type(scheme)] *)
Abbreviation cache_key := (text * text * bool * pytype * pytype)%type.

(** A [Quoter] object: the [safe] frozenset and the entries that
    [__missing__] has stored so far (the object is a [defaultdict]). *)
Record Quoter := mkQuoter {
  q_safe : gset N;
  q_memo : gmap N text }.

Record state := mkState {
  _parse_cache : gmap cache_key SplitResult;
  _safe_quoters : gmap text Quoter }.

Definition initial_state : state := mkState ∅ ∅.

(** Code that reads and writes the caches and may raise. *)
Definition M (A : Type) : Type := state -> result A * state.

Definition ret {A} (a : A) : M A := fun st => (Ok a, st).
Definition raise {A} (e : exn) : M A := fun st => (Raise e, st).
Definition bind {A B} (m : M A) (k : A -> M B) : M B :=
  fun st =>
    match m st with
    | (Ok a, st') => k a st'
    | (Raise e, st') => (Raise e, st')
    end.
Definition lift {A} (r : result A) : M A := fun st => (r, st).

Global Instance M_ret : MRet M := @ret.
Global Instance M_bind : MBind M := fun A B k m => bind m k.

Definition clear_cache : M unit :=
  fun _ => (Ok tt, mkState ∅ ∅).

Definition urlsplit (url scheme : pystring) (allow_fragments : bool)
  : M SplitResult :=
  fun st =>
    let key := (chars url, chars scheme, allow_fragments,
                type_of url, type_of scheme) in
    match _parse_cache st !! key with
    | Some cached => (Ok cached, st)
    | None =>
        let st :=
          if Z.of_nat (size (_parse_cache st)) >=? MAX_CACHE_SIZE
          then snd (clear_cache st) else st in
        match urlsplit_compute (chars url) (chars scheme) allow_fragments with
        | Raise e => (Raise e, st)
        | Ok v =>
            (Ok v, mkState (<[key := v]> (_parse_cache st)) (_safe_quoters st))
        end
    end.

Definition urlparse (url scheme : pystring) (allow_fragments : bool)
  : M ParseResult :=
  splitresult ← urlsplit url scheme allow_fragments;
  mret (parse_of_split splitresult).

(** [urljoin] on [str] arguments. *)
Definition urljoin (base url : text) (allow_fragments : bool) : M text :=
  if Py.eqb base [] then ret url
  else if Py.eqb url [] then ret base
  else
    b ← urlparse (PStr base) (PStr []) allow_fragments;
    u ← urlparse (PStr url) (PStr (scheme b)) allow_fragments;
    mret (join_parsed url b u).

(** The same three functions with every [urlsplit] a cache miss. *)
Definition urlparse_compute (url scheme : text) (allow_fragments : bool)
  : result ParseResult :=
  match urlsplit_compute url scheme allow_fragments with
  | Ok r => Ok (parse_of_split r)
  | Raise e => Raise e
  end.

Definition urljoin_compute (base url : text) (allow_fragments : bool)
  : result text :=
  if Py.eqb base [] then Ok url
  else if Py.eqb url [] then Ok base
  else
    match urlparse_compute base [] allow_fragments with
    | Raise e => Raise e
    | Ok b =>
        match urlparse_compute url (scheme b) allow_fragments with
        | Raise e => Raise e
        | Ok u => Ok (join_parsed url b u)
        end
    end.

(** Every cached value is what a fresh computation on its key returns. *)
Definition cache_ok (st : state) : Prop :=
  forall url scheme af t1 t2 v,
    _parse_cache st !! (url, scheme, af, t1, t2) = Some v ->
    urlsplit_compute url scheme af = Ok v.

(** ** Percent-decoding *)

Definition _hexdig : text := lit "0123456789ABCDEFabcdef".

(** Value of one hexadecimal digit, as [int(_, 16)] reads it. *)
Definition hex_value (c : N) : option N :=
  if ((48 <=? c) && (c <=? 57))%N then Some (c - 48)%N
  else if ((65 <=? c) && (c <=? 70))%N then Some (c - 55)%N
  else if ((97 <=? c) && (c <=? 102))%N then Some (c - 87)%N
  else None.

(** [int(s, 16)] on a text of hexadecimal digits. *)
Definition int16 (s : text) : option N :=
  foldl (fun acc c =>
           match acc, hex_value c with
           | Some n, Some d => Some (16 * n + d)%N
           | _, _ => None
           end) (Some 0%N) s.

(** [dict(((a + b).decode('ascii'), chr(int(a + b, 16)))
          for a in _hexdig for b in _hexdig)] *)
Definition _hextobyte : gmap text text :=
  list_to_map
    (flat_map (fun a =>
       flat_map (fun b =>
         match int16 [a; b] with
         | Some n => [([a; b], [n])]
         | None => []
         end) _hexdig) _hexdig).

(** [u.encode('utf-8')] *)
Definition utf8_encode_char (c : N) : text :=
  (if c <? 128 then [c]
   else if c <? 2048 then
     [N.lor 192 (N.shiftr c 6); N.lor 128 (N.land c 63)]
   else if c <? 65536 then
     [N.lor 224 (N.shiftr c 12);
      N.lor 128 (N.land (N.shiftr c 6) 63);
      N.lor 128 (N.land c 63)]
   else
     [N.lor 240 (N.shiftr c 18);
      N.lor 128 (N.land (N.shiftr c 12) 63);
      N.lor 128 (N.land (N.shiftr c 6) 63);
      N.lor 128 (N.land c 63)])%N.

Definition utf8_encode (u : text) : text :=
  concat (utf8_encode_char <$> u).

(** The body of the loop of lines 500-506. *)
Definition unquote_item (item : text) : text :=
  match _hextobyte !! Py.slice_to item 2 with
  | Some b => b ++ Py.slice_from item 2
  | None => lit "%" ++ item
  end.

(** Lines 495-507, on the byte string. *)
Definition unquote_bytes (string : text) : text :=
  let bits := Py.split (ch "%") string in
  if (length bits =? 1)%nat then string
  else concat (hd [] bits :: (unquote_item <$> tail bits)).

Definition unquote_to_bytes (string : pystring) : text :=
  unquote_bytes
    match string with
    | PUni u => utf8_encode u
    | PStr b => b
    end.

(** The codec registry of the interpreter, which the module only calls:
    [b.decode(encoding, errors)] and [u.encode(encoding, errors)]. *)
Class Codecs := {
  str_decode : text -> text -> text -> result text;
  unicode_encode : text -> text -> text -> result text }.

(** [b.decode('ascii')], also [b.decode()]: the default encoding is ASCII. *)
Definition ascii_decode (b : text) : result text :=
  if forallb (fun c => c <? 128)%N b then Ok b
  else Raise (UnicodeError "'ascii' codec can't decode byte").

(** [_asciire.split(string)] for [_asciire = re.compile('([\x00-\x7f]+)')]:
    the text before the first ASCII run, then every ASCII run paired
    with the text that separates it from the next one. *)
Fixpoint asciire_split (s : text) : text * list (text * text) :=
  match s with
  | [] => ([], [])
  | c :: t =>
      let '(b0, rest) := asciire_split t in
      if (c <? 128)%N then
        match b0, rest with
        | [], (m, sep) :: rest' => ([], (c :: m, sep) :: rest')
        | _, _ => ([], ([c], b0) :: rest)
        end
      else (c :: b0, rest)
  end.

Section Unquote.
Context `{Codecs}.

(** The loop of lines 526-528. *)
Fixpoint unquote_runs (encoding errors : text) (bits : list (text * text))
  : result text :=
  match bits with
  | [] => Ok []
  | (run, sep) :: rest =>
      match str_decode encoding errors (unquote_to_bytes (PUni run)) with
      | Raise e => Raise e
      | Ok d =>
          match unquote_runs encoding errors rest with
          | Raise e => Raise e
          | Ok r => Ok (d ++ sep ++ r)
          end
      end
  end.

Definition unquote (string : pystring) (encoding errors : text)
  : result pystring :=
  match
    match string with
    | PStr b => ascii_decode b
    | PUni u => Ok u
    end
  with
  | Raise e => Raise e
  | Ok string =>
      let '(b0, bits) := asciire_split string in
      match unquote_runs encoding errors bits with
      | Raise e => Raise e
      | Ok r => Ok (PUni (b0 ++ r))
      end
  end.
End Unquote.

(** ** Percent-encoding *)

Definition _ALWAYS_SAFE : gset N :=
  list_to_set (lit ("ABCDEFGHIJKLMNOPQRSTUVWXYZ" ++
                    "abcdefghijklmnopqrstuvwxyz" ++
                    "0123456789" ++
                    "_.-~")%string).

Definition _ALWAYS_SAFE_BYTES : text := elements _ALWAYS_SAFE.

(** [s.rstrip(chars)] *)
Fixpoint rstrip (chars s : text) : text :=
  match s with
  | [] => []
  | x :: t =>
      match rstrip chars t with
      | [] => if Py.contains x chars then [] else [x]
      | r => x :: r
      end
  end.

(** One uppercase hexadecimal digit. *)
Definition hex_digit (d : N) : N :=
  if (d <? 10)%N then (48 + d)%N else (55 + d)%N.

Fixpoint hex_digits (fuel : nat) (n : N) (acc : text) : text :=
  match fuel with
  | O => acc
  | S k =>
      if (n <? 16)%N then hex_digit n :: acc
      else hex_digits k (n / 16)%N (hex_digit (n mod 16)%N :: acc)
  end.

(** ['%%%02X' % n] *)
Definition format_pct_02X (n : N) : text :=
  let digits := hex_digits (S (N.to_nat n)) n [] in
  lit "%" ++ (if (length digits <? 2)%nat then ch "0" :: digits else digits).

Definition Quoter_init (safe : text) : Quoter :=
  mkQuoter (_ALWAYS_SAFE ∪ list_to_set safe) ∅.

Definition Quoter_missing (q : Quoter) (b : N) : text * Quoter :=
  let res := if bool_decide (b ∈ q_safe q) then [b] else format_pct_02X b in
  (res, mkQuoter (q_safe q) (<[b := res]> (q_memo q))).

Definition Quoter_getitem (q : Quoter) (b : N) : text * Quoter :=
  match q_memo q !! b with
  | Some res => (res, q)
  | None => Quoter_missing q b
  end.

(** [[quoter(char) for char in bs]] *)
Fixpoint quote_chars (q : Quoter) (bs : text) : list text * Quoter :=
  match bs with
  | [] => ([], q)
  | c :: r =>
      let '(x, q) := Quoter_getitem q c in
      let '(xs, q) := quote_chars q r in
      (x :: xs, q)
  end.

(** [c < n] for a one-character [str] [c] and an [int] [n].  Python 2
    orders objects of unrelated types by type: a number sorts before
    anything that is not a number, so a [str] is never below an [int]. *)
Definition str_lt_int (c : N) (n : Z) : bool := false.

(** [repr] of a one-character [str]. *)
Definition repr_char (c : N) : text :=
  let hex2 n := [hex_digit (n / 16); hex_digit (n mod 16)]%N in
  if (c =? 39)%N then [34; 39; 34]%N
  else
    [39%N] ++
    (if (c =? 92)%N then [92; 92]
     else if (c =? 9)%N then [92; 116]
     else if (c =? 10)%N then [92; 110]
     else if (c =? 13)%N then [92; 114]
     else if ((c <? 32) || (127 <=? c))%N
          then [92; 120]%N ++ Py.lower (hex2 c)
     else [c])%N ++ [39%N].

(** [bytes(l)], that is [str(l)], of a list of one-character [str]. *)
Definition str_of_list (l : text) : text :=
  lit "[" ++ Py.join (lit ", ") (repr_char <$> l) ++ lit "]".

(** Lines 745-749. *)
Definition normalize_safe (safe : pystring) : text :=
  match safe with
  | PUni u => List.filter (fun c => c <? 128)%N u
  | PStr s => str_of_list (List.filter (fun c => str_lt_int c 128) s)
  end.

Definition quote_from_bytes (bs safe : pystring) : M pystring :=
  match bs with
  | PUni _ => raise (TypeError "quote_from_bytes() expected bytes")
  | PStr bs =>
      if Py.eqb bs [] then mret (PStr [])
      else
        let safe := normalize_safe safe in
        if Py.eqb (rstrip (_ALWAYS_SAFE_BYTES ++ safe) bs) [] then
          match ascii_decode bs with
          | Ok u => mret (PUni u)
          | Raise e => raise e
          end
        else
          fun st =>
            let quoter :=
              match _safe_quoters st !! safe with
              | Some q => q
              | None => Quoter_init safe
              end in
            let '(out, quoter) := quote_chars quoter bs in
            (Ok (PStr (concat out)),
             mkState (_parse_cache st) (<[safe := quoter]> (_safe_quoters st)))
  end.

Section Quote.
Context `{Codecs}.

Definition quote (string safe : pystring) (encoding errors : option text)
  : M pystring :=
  match string with
  | PUni u =>
      if Py.eqb u [] then mret string
      else
        let encoding := default (lit "utf-8") encoding in
        let errors := default (lit "strict") errors in
        match unicode_encode encoding errors u with
        | Raise e => raise e
        | Ok b => quote_from_bytes (PStr b) safe
        end
  | PStr _ =>
      if bool_decide (encoding ≠ None)
      then raise (TypeError "quote() doesn't support 'encoding' for bytes")
      else if bool_decide (errors ≠ None)
      then raise (TypeError "quote() doesn't support 'errors' for bytes")
      else quote_from_bytes string safe
  end.
End Quote.

(** ** Statements that the theorems below settle *)

(** [urlparse] would split the last segment of the path at its last [;]. *)
Definition params_split_at_last_semicolon : Prop :=
  forall url scheme af st r p,
    fst (urlsplit url scheme af st) = Ok r ->
    Py.mem (s_scheme r) uses_params = true ->
    ch ";" ∈ s_path r ->
    fst (urlparse url scheme af st) = Ok p ->
    forall u seg b q,
      s_path r = u ++ ch "/" :: seg -> ch "/" ∉ seg ->
      seg = b ++ ch ";" :: q -> ch ";" ∉ q ->
      path p = u ++ ch "/" :: b /\ params p = q.

(** [urljoin] would answer a reference of a foreign scheme with the
    reconstruction of its six components. *)
Definition foreign_reference_is_reconstructed : Prop :=
  forall base url af st b u,
    base ≠ [] -> url ≠ [] ->
    fst (urlparse (PStr base) (PStr []) af st) = Ok b ->
    fst (urlparse (PStr url) (PStr (scheme b)) af
           (snd (urlparse (PStr base) (PStr []) af st))) = Ok u ->
    scheme u ≠ scheme b \/ Py.mem (scheme u) uses_relative = false ->
    fst (urljoin base url af st) = Ok (urlunparse u).

(** States that the entry points of the module can produce. *)
Inductive reachable : state -> Prop :=
| reach_initial : reachable initial_state
| reach_urlsplit st url scheme af :
    reachable st -> reachable (snd (urlsplit url scheme af st))
| reach_quote_from_bytes st bs safe :
    reachable st -> reachable (snd (quote_from_bytes bs safe st))
| reach_clear_cache st :
    reachable st -> reachable (snd (clear_cache st)).

(** Lines 329-333 and 345-351 of [urlsplit]: the scheme that is
    recognised and the text that remains once it is removed. *)
Definition scheme_split (url scheme : text) : text * text :=
  let i := Py.find (ch ":") url 0 in
  if i >? 0 then
    if Py.eqb (Py.slice_to url i) (lit "http")
       || forallb (fun c => Py.contains c scheme_chars) (Py.slice_to url i)
    then (Py.lower (Py.slice_to url i), Py.slice_from url (i + 1))
    else (scheme, url)
  else (scheme, url).

(** [auth] is the authority substring of [rest]: [rest] begins with
    [//], [auth] follows and runs up to the first of [/], [?], [#], or
    to the end. *)
Definition authority_of (rest auth : text) : Prop :=
  exists tail,
    rest = lit "//" ++ auth ++ tail /\
    (forall c, c ∈ lit "/?#" -> c ∉ auth) /\
    (tail = [] \/ exists c t, tail = c :: t /\ c ∈ lit "/?#").

(** [[] without []], or the other way round. *)
Definition unbalanced (auth : text) : Prop :=
  (ch "[" ∈ auth /\ ch "]" ∉ auth) \/ (ch "]" ∈ auth /\ ch "[" ∉ auth).

(** ** More Python primitives *)

(** [s.rsplit(c, 1)] for a text that contains [c]: the text before the
    last [c] and the text after it. *)
Definition rsplit1 (c : N) (s : text) : text * text :=
  match Py.rindex c s with
  | Some k => (take k s, drop (S k) s)
  | None => ([], s)
  end.

(** [s.replace(a, b)] for one-character [a] and [b]. *)
Definition replace_char (a b : N) (s : text) : text :=
  (fun c => if (c =? a)%N then b else c) <$> s.

(** [s[i]] for a non-negative literal [i]; [IndexError] past the end. *)
Definition getitem (s : text) (i : nat) : option N := s !! i.

(** [s.isdigit()] on a [str]. *)
Definition isdigit (s : text) : bool :=
  negb (Py.eqb s []) && forallb (fun c => (48 <=? c) && (c <=? 57))%N s.

(** [int(s, 10)] on a text for which [isdigit] holds. *)
Definition int_of_digits (s : text) : Z :=
  foldl (fun acc c => 10 * acc + (Z.of_N c - 48)) 0 s.

(** A Python value that is [None], a string or an integer. *)
Inductive pyval :=
| VNone
| VText (t : text)
| VInt (n : Z).

(** ** Accessors of the result tuples ([ResultMixin]) *)

Definition username (netloc : text) : option text :=
  if Py.contains (ch "@") netloc then
    let userinfo := fst (rsplit1 (ch "@") netloc) in
    if Py.contains (ch ":") userinfo
    then Some (fst (Py.split1 (ch ":") userinfo))
    else Some userinfo
  else None.

Definition password (netloc : text) : option text :=
  if Py.contains (ch "@") netloc then
    let userinfo := fst (rsplit1 (ch "@") netloc) in
    if Py.contains (ch ":") userinfo
    then Some (snd (Py.split1 (ch ":") userinfo))
    else None
  else None.

Definition hostname (netloc : text) : text :=
  if Py.contains (ch "[") netloc && Py.contains (ch "]") netloc
     || Py.contains (ch ":") netloc
  then fst (Py.split1 (ch ":") (last_item (Py.split (ch "@") netloc)))
  else if Py.contains (ch "@") netloc
  then snd (rsplit1 (ch "@") netloc)
  else netloc.

(** [SplitResult.geturl] and [ParseResult.geturl]. *)
Definition split_geturl (r : SplitResult) : text := urlunsplit r.
Definition parse_geturl (r : ParseResult) : text := urlunparse r.

(** [DefragResult.geturl] on the pair [(url, fragment)]. *)
Definition defrag_geturl (d : text * text) : text :=
  if negb (Py.eqb (snd d) []) then fst d ++ lit "#" ++ snd d else fst d.

(** ** [urldefrag] *)

Definition urldefrag (url : text) : M (text * text) :=
  if Py.contains (ch "#") url then
    p ← urlparse (PStr url) (PStr []) true;
    mret (urlunparse (mkParse (scheme p) (netloc p) (path p) (params p)
                              (query p) []),
          fragment p)
  else mret (url, []).

(** ** The single-delimiter helpers *)

Definition splittype (url : text) : option text * text :=
  if Py.contains (ch ":") url then
    let i := Py.find (ch ":") url 0 in
    (Some (Py.slice_to url i), Py.slice_from url (i + 1))
  else (None, url).

Inductive index_error := IndexError.

(** [splithost]: [url[0]] and [url[1]] raise [IndexError] past the end. *)
Definition splithost (url : text) : index_error + (option text * text) :=
  match getitem url 0 with
  | None => inl IndexError
  | Some c0 =>
      if negb (c0 =? ch "/")%N then inr (None, url)
      else
        match getitem url 1 with
        | None => inl IndexError
        | Some c1 =>
            if negb (c1 =? ch "/")%N then inr (None, url)
            else
              let i := Py.find (ch "/") url 2 in
              if i <? 0 then inr (Some (Py.slice_from url 2), [])
              else inr (Some (Py.slice url 2 i), Py.slice_from url i)
        end
  end.

Definition splituser (host : text) : option text * text :=
  if Py.contains (ch "@") host then
    let i := Py.find (ch "@") host 0 in
    (Some (Py.slice_to host i), Py.slice_from host (i + 1))
  else (None, host).

Definition splitpasswd (user : text) : text * option text :=
  if Py.contains (ch ":") user then
    let i := Py.find (ch ":") user 0 in
    (Py.slice_to user i, Some (Py.slice_from user (i + 1)))
  else (user, None).

Definition splitport (host : text) : option text * pyval :=
  if negb (Py.eqb host [])
     && match last host with Some c => (c =? ch "]")%N | None => false end
  then (None, VNone)
  else if Py.contains (ch ":") host then
    let i := Py.rfind (ch ":") host in
    if i >? Py.find (ch "[") host 0 then (Some host, VNone)
    else if (i >? Py.find (ch "]") host 0)
            && negb (Py.find (ch "]") host 0 =? -1)
    then (Some host, VNone)
    else
      let port := Py.slice_from host (i + 1) in
      let port :=
        if negb (Py.eqb port []) && isdigit port
        then VInt (int_of_digits port) else VText port in
      (Some (Py.slice_to host i), port)
  else (Some host, VNone).

Definition splitquery (url : text) : text * option text :=
  if Py.contains (ch "?") url then
    let i := Py.find (ch "?") url 0 in
    (Py.slice_to url i, Some (Py.slice_from url (i + 1)))
  else (url, None).

Definition splittag (url : text) : text * option text :=
  if Py.contains (ch "#") url then
    let i := Py.find (ch "#") url 0 in
    (Py.slice_to url i, Some (Py.slice_from url (i + 1)))
  else (url, None).

Definition splitattr (url : text) : text * list text :=
  let words := Py.split (ch ";") url in
  (hd [] words, tail words).

Definition splitvalue (attr : text) : text * option text :=
  if Py.contains (ch "=") attr then
    let i := Py.find (ch "=") attr 0 in
    (Py.slice_to attr i, Some (Py.slice_from attr (i + 1)))
  else (attr, None).

Section Builtins.
(** [int(x)] of the interpreter, on a text. *)
Variable int_of_text : text -> option Z.

Definition splitnport (host : text) (defport : pyval) : option text * pyval :=
  let '(host, port) := splitport host in
  match port with
  | VNone => (host, defport)
  | VInt n => (host, VInt n)
  | VText t =>
      match int_of_text t with
      | Some n => (host, VInt n)
      | None => (host, VNone)
      end
  end.
End Builtins.

(** ** [to_bytes] and [unwrap] *)

Definition to_bytes (url : pystring) : result pystring :=
  match url with
  | PUni u =>
      if forallb (fun c => c <? 128)%N u then Ok (PUni u)
      else Raise (UnicodeError "URL contains non-ASCII characters")
  | PStr _ => Ok url
  end.

Section Strip.
(** The characters that [str.strip()] removes. *)
Variable isspace : N -> bool.

Fixpoint lstrip (s : text) : text :=
  match s with
  | [] => []
  | c :: t => if isspace c then lstrip t else s
  end.

Fixpoint rstrip_space (s : text) : text :=
  match s with
  | [] => []
  | c :: t =>
      match rstrip_space t with
      | [] => if isspace c then [] else [c]
      | r => c :: r
      end
  end.

Definition strip (s : text) : text := rstrip_space (lstrip s).

(** [unwrap] on a [str]. *)
Definition unwrap (url : text) : text :=
  let url := strip url in
  let url :=
    if Py.eqb (Py.slice_to url 1) (lit "<")
       && Py.eqb (Py.slice_from url (-1)) (lit ">")
    then strip (Py.slice url 1 (-1)) else url in
  if Py.eqb (Py.slice_to url 4) (lit "URL:")
  then strip (Py.slice_from url 4) else url.
End Strip.

(** ** [repr] of a string *)

(** The built-in that line 598 applies with [%r], written out after
    Python 2.7's [repr] of [str] and of [unicode]. *)

(** One lower-case hexadecimal digit. *)
Definition lower_hex_digit (d : N) : N :=
  if (d <? 10)%N then (48 + d)%N else (87 + d)%N.

(** [n] in [w] lower-case hexadecimal digits, as [%0wx] writes it. *)
Fixpoint hex_fixed (w : nat) (n : N) (acc : text) : text :=
  match w with
  | O => acc
  | S k => hex_fixed k (n / 16)%N (lower_hex_digit (n mod 16)%N :: acc)
  end.

(** How [repr] writes one character between the quotes [quote]. *)
Definition repr_body (quote : N) (unicode : bool) (c : N) : text :=
  (if (c =? quote) || (c =? 92) then [92; c]
   else if c =? 9 then [92; 116]
   else if c =? 10 then [92; 110]
   else if c =? 13 then [92; 114]
   else if unicode && (65536 <=? c) then [92; 85] ++ hex_fixed 8 c []
   else if unicode && (256 <=? c) then [92; 117] ++ hex_fixed 4 c []
   else if (c <? 32) || (127 <=? c) then [92; 120] ++ hex_fixed 2 c []
   else [c])%N.

(** [repr(s)]: in single quotes, or in double quotes when [s] has a
    single quote and no double quote; a unicode string has the prefix
    [u]. *)
Definition repr_text (s : pystring) : text :=
  let t := chars s in
  let quote :=
    if Py.contains 39%N t && negb (Py.contains 34%N t) then 34%N else 39%N in
  match s with PUni _ => [117%N] | PStr _ => [] end
  ++ [quote]
  ++ concat (repr_body quote
               match s with PUni _ => true | PStr _ => false end <$> t)
  ++ [quote].

(** The message of an exception, from the text of a formatted string. *)
Definition message (t : text) : string :=
  string_of_list_ascii (ascii_of_N <$> t).

(** ** Query strings *)

(** A text of the same type as [s]. *)
Definition same_kind (s : pystring) (t : text) : pystring :=
  match s with PStr _ => PStr t | PUni _ => PUni t end.

Section QueryStrings.
Context `{Codecs}.

Definition unquote_plus (string : pystring) (encoding errors : text)
  : result pystring :=
  unquote (same_kind string (replace_char (ch "+") (ch " ") (chars string)))
          encoding errors.

(** One iteration of the loop of lines 592-611: [Ok None] when nothing
    is appended to [r]. *)
Definition parse_field (kind : pystring)
    (keep_blank_values strict_parsing : bool) (encoding errors : text)
    (name_value : text) : result (option (text * text)) :=
  if Py.eqb name_value [] && negb strict_parsing then Ok None
  else
    let nv :=
      if Py.contains (ch "=") name_value then
        let '(n, v) := Py.split1 (ch "=") name_value in
        Ok (Some (n, same_kind kind v))
      else if strict_parsing then
        Raise (ValueError
                 (message (lit "bad query field: "
                           ++ repr_text (same_kind kind name_value))))
      else if keep_blank_values then Ok (Some (name_value, PStr []))
      else Ok None in
    match nv with
    | Raise e => Raise e
    | Ok None => Ok None
    | Ok (Some (n, v)) =>
        if negb (Py.eqb (chars v) []) || keep_blank_values then
          match unquote (same_kind kind (replace_char (ch "+") (ch " ") n))
                        encoding errors with
          | Raise e => Raise e
          | Ok name =>
              match unquote
                      (same_kind v (replace_char (ch "+") (ch " ") (chars v)))
                      encoding errors with
              | Raise e => Raise e
              | Ok value => Ok (Some (chars name, chars value))
              end
          end
        else Ok None
    end.

Fixpoint parse_fields (kind : pystring)
    (keep_blank_values strict_parsing : bool) (encoding errors : text)
    (pairs : list text) : result (list (text * text)) :=
  match pairs with
  | [] => Ok []
  | name_value :: rest =>
      match parse_field kind keep_blank_values strict_parsing
                        encoding errors name_value with
      | Raise e => Raise e
      | Ok o =>
          match parse_fields kind keep_blank_values strict_parsing
                             encoding errors rest with
          | Raise e => Raise e
          | Ok r => Ok (match o with Some p => p :: r | None => r end)
          end
      end
  end.

Definition parse_qsl (qs : pystring)
    (keep_blank_values strict_parsing : bool) (encoding errors : text)
  : result (list (text * text)) :=
  let pairs :=
    s1 ← Py.split (ch "&") (chars qs); Py.split (ch ";") s1 in
  parse_fields qs keep_blank_values strict_parsing encoding errors pairs.

Definition parse_qs (qs : pystring)
    (keep_blank_values strict_parsing : bool) (encoding errors : text)
  : result (gmap text (list text)) :=
  match parse_qsl qs keep_blank_values strict_parsing encoding errors with
  | Raise e => Raise e
  | Ok l =>
      Ok (foldl (fun parsed_result '(name, value) =>
                   match parsed_result !! name with
                   | Some vs => <[name := vs ++ [value]]> parsed_result
                   | None => <[name := [value]]> parsed_result
                   end) ∅ l)
  end.

Definition quote_plus (string safe : pystring) (encoding errors : option text)
  : M pystring :=
  if negb (Py.contains (ch " ") (chars string))
  then quote string safe encoding errors
  else
    let space := same_kind safe (lit " ") in
    string ← quote string (same_kind safe (chars safe ++ chars space))
                   encoding errors;
    mret (same_kind string (replace_char (ch " ") (ch "+") (chars string))).
End QueryStrings.

(** [urldefrag] with every [urlsplit] a cache miss. *)
Definition urldefrag_compute (url : text) : result (text * text) :=
  if Py.contains (ch "#") url then
    match urlparse_compute url [] true with
    | Ok p =>
        Ok (urlunparse (mkParse (scheme p) (netloc p) (path p) (params p)
                                (query p) []),
            fragment p)
    | Raise e => Raise e
    end
  else Ok (url, []).

(** ** Notions used by the theorems on the codecs *)

(** The codec [encoding] decodes ASCII bytes to the same characters,
    whatever the error policy: true of every ASCII-compatible codec. *)
Definition ascii_transparent `{Codecs} (encoding : text) : Prop :=
  forall errors b,
    forallb (fun c => c <? 128)%N b = true ->
    str_decode encoding errors b = Ok b.

(** A registry in which every name denotes Latin-1: a byte decodes to
    the character of the same ordinal. *)
Definition latin1_registry : Codecs :=
  {| str_decode := fun _ _ b => Ok b;
     unicode_encode := fun _ _ u =>
       if forallb (fun c => c <? 256)%N u then Ok u
       else Raise (UnicodeError "'latin-1' codec can't encode character") |}.

(** The values paired with [name] in a list of pairs, in order. *)
Definition values_of (name : text) (l : list (text * text)) : list text :=
  omap (fun p => if decide (fst p = name) then Some (snd p) else None) l.

(** What [Quoter.__missing__] computes for the byte [b]. *)
Definition quoted_byte (safe : gset N) (b : N) : text :=
  if bool_decide (b ∈ safe) then [b] else format_pct_02X b.

(** A quoter stored under [safe] has the safe set of [Quoter(safe)] and
    only entries that [__missing__] stored. *)
Definition quoter_ok (safe : text) (q : Quoter) : Prop :=
  q_safe q = _ALWAYS_SAFE ∪ list_to_set safe
  /\ forall b r, q_memo q !! b = Some r -> r = quoted_byte (q_safe q) b.

Definition quoters_ok (st : state) : Prop :=
  forall safe q, _safe_quoters st !! safe = Some q -> quoter_ok safe q.

(** A digit or one of [A]-[F]. *)
Definition upper_hex (c : N) : Prop :=
  (48 <= c <= 57)%N \/ (65 <= c <= 70)%N.

(** The query [k1=v1&k2=v2&...] of a list of pairs. *)
Definition query_of (l : list (text * text)) : text :=
  Py.join (lit "&") ((fun p => fst p ++ lit "=" ++ snd p) <$> l).

(** ** Paths as lists of segments *)




(** * Facts about the Python primitives *)

Section PyFacts.
Implicit Types (c x : N) (s a b : text).

Lemma contains_elem c s : Py.contains c s = true <-> c ∈ s.
Proof.
  unfold Py.contains. rewrite existsb_exists. split.
  - intros (x & Hin & Hx). apply N.eqb_eq in Hx. subst.
    by apply list_elem_of_In.
  - intros Hin. exists c. split; [by apply list_elem_of_In | apply N.eqb_refl].
Qed.

Lemma contains_false c s : Py.contains c s = false <-> c ∉ s.
Proof.
  rewrite <- contains_elem. destruct (Py.contains c s); intuition congruence.
Qed.

Lemma contains_app c a b :
  Py.contains c (a ++ b) = Py.contains c a || Py.contains c b.
Proof. unfold Py.contains. apply existsb_app. Qed.

Lemma eqb_eq a b : Py.eqb a b = true <-> a = b.
Proof. unfold Py.eqb. apply bool_decide_eq_true. Qed.

Lemma eqb_false a b : Py.eqb a b = false <-> a ≠ b.
Proof. unfold Py.eqb. apply bool_decide_eq_false. Qed.

Lemma eqb_refl a : Py.eqb a a = true.
Proof. by apply eqb_eq. Qed.

Lemma index_app_first c a b : c ∉ a -> Py.index c (a ++ c :: b) = Some (length a).
Proof.
  induction a as [|x a IH]; intros Hn; simpl.
  - by rewrite N.eqb_refl.
  - apply not_elem_of_cons in Hn as [Hx Ha].
    destruct (N.eqb_spec x c) as [->|_]; [done|].
    by rewrite IH.
Qed.

Lemma index_None c s : Py.index c s = None <-> c ∉ s.
Proof.
  induction s as [|x s IH]; simpl.
  - split; [intros _; apply not_elem_of_nil | done].
  - destruct (N.eqb_spec x c) as [->|Hne].
    + split; [done | intros Hn; exfalso; apply Hn; left].
    + rewrite not_elem_of_cons, <- IH.
      destruct (Py.index c s); simpl; intuition congruence.
Qed.

Lemma index_Some c s k :
  Py.index c s = Some k ->
  exists a b, s = a ++ c :: b /\ (c ∉ a) /\ length a = k.
Proof.
  revert k. induction s as [|x s IH]; intros k; simpl; [done|].
  destruct (N.eqb_spec x c) as [->|Hne].
  - intros [= <-]. exists [], s. split_and!; [done | apply not_elem_of_nil | done].
  - destruct (Py.index c s) as [k'|] eqn:E; simpl; [|done].
    intros [= <-]. destruct (IH k' eq_refl) as (a & b & -> & Ha & Hl).
    exists (x :: a), b. split_and!; [done | | by simpl; rewrite Hl].
    apply not_elem_of_cons; split; [congruence | done].
Qed.

Lemma rindex_app_last c a b : c ∉ b -> Py.rindex c (a ++ c :: b) = Some (length a).
Proof.
  intros Hb. assert (Hnone : Py.rindex c b = None).
  { clear a. induction b as [|x b IH]; [done|]. simpl.
    apply not_elem_of_cons in Hb as [Hx Hb]. rewrite (IH Hb).
    destruct (N.eqb_spec x c); congruence. }
  induction a as [|x a IH]; simpl.
  - by rewrite Hnone, N.eqb_refl.
  - by rewrite IH.
Qed.

Lemma rindex_None c s : Py.rindex c s = None <-> c ∉ s.
Proof.
  induction s as [|x s IH]; simpl.
  - split; [intros _; apply not_elem_of_nil | done].
  - rewrite not_elem_of_cons, <- IH.
    destruct (Py.rindex c s); destruct (N.eqb_spec x c); intuition congruence.
Qed.

Lemma len_app a b : Py.len (a ++ b) = Py.len a + Py.len b.
Proof. unfold Py.len. rewrite length_app. lia. Qed.

Lemma len_nonneg a : 0 <= Py.len a.
Proof. unfold Py.len. lia. Qed.

Lemma to_nat_len a : Z.to_nat (Py.len a) = length a.
Proof. unfold Py.len. apply Nat2Z.id. Qed.

Lemma clamp_in n i : 0 <= i <= n -> Py.clamp n i = i.
Proof. unfold Py.clamp. intros. destruct (Z.ltb_spec i 0); lia. Qed.

Lemma slice_to_app a b : Py.slice_to (a ++ b) (Py.len a) = a.
Proof.
  unfold Py.slice_to. rewrite clamp_in.
  - by rewrite to_nat_len, take_app_length.
  - rewrite len_app. pose proof (len_nonneg a). pose proof (len_nonneg b). lia.
Qed.

Lemma slice_from_app a b : Py.slice_from (a ++ b) (Py.len a) = b.
Proof.
  unfold Py.slice_from. rewrite clamp_in.
  - by rewrite to_nat_len, drop_app_length.
  - rewrite len_app. pose proof (len_nonneg a). pose proof (len_nonneg b). lia.
Qed.

Lemma slice_from_app_cons a c b :
  Py.slice_from (a ++ c :: b) (Py.len a + 1) = b.
Proof.
  replace (a ++ c :: b) with ((a ++ [c]) ++ b) by (by rewrite <- app_assoc).
  replace (Py.len a + 1) with (Py.len (a ++ [c])).
  - apply slice_from_app.
  - rewrite len_app. reflexivity.
Qed.

(** [find] from an offset inside the text: the first occurrence at or after it. *)
Lemma find_app_first c a b d :
  c ∉ b -> Py.find c (a ++ b ++ c :: d) (Py.len a) = Py.len a + Py.len b.
Proof.
  intros Hb. unfold Py.find. rewrite clamp_in.
  - rewrite to_nat_len, drop_app_length.
    rewrite index_app_first by done. reflexivity.
  - rewrite len_app. pose proof (len_nonneg a).
    pose proof (len_nonneg (b ++ c :: d)). lia.
Qed.

Lemma find_app_none c a b :
  c ∉ b -> Py.find c (a ++ b) (Py.len a) = -1.
Proof.
  intros Hb. unfold Py.find. rewrite clamp_in.
  - rewrite to_nat_len, drop_app_length.
    apply index_None in Hb. by rewrite Hb.
  - rewrite len_app. pose proof (len_nonneg a). pose proof (len_nonneg b). lia.
Qed.

Lemma find0_first c b d : c ∉ b -> Py.find c (b ++ c :: d) 0 = Py.len b.
Proof. intros Hb. by apply (find_app_first c [] b d). Qed.

Lemma find0_none c b : c ∉ b -> Py.find c b 0 = -1.
Proof. intros Hb. by apply (find_app_none c [] b). Qed.

Lemma rfind_app_last c a b : c ∉ b -> Py.rfind c (a ++ c :: b) = Py.len a.
Proof. intros Hb. unfold Py.rfind. by rewrite rindex_app_last. Qed.

Lemma split1_app c a b : c ∉ a -> Py.split1 c (a ++ c :: b) = (a, b).
Proof.
  intros Ha. unfold Py.split1. rewrite index_app_first by done.
  rewrite take_app_length.
  replace (a ++ c :: b) with ((a ++ [c]) ++ b) by (by rewrite <- app_assoc).
  replace (S (length a)) with (length (a ++ [c])) by (rewrite length_app; simpl; lia).
  by rewrite drop_app_length.
Qed.

(** Any text containing [c] splits at its first, and at its last, [c]. *)
Lemma elem_split_first c s : c ∈ s -> exists a b, s = a ++ c :: b /\ c ∉ a.
Proof.
  intros Hin. destruct (Py.index c s) as [k|] eqn:E.
  - destruct (index_Some _ _ _ E) as (a & b & ? & ? & ?). eauto.
  - by apply index_None in E.
Qed.

Lemma elem_split_last c s : c ∈ s -> exists a b, s = a ++ c :: b /\ c ∉ b.
Proof.
  induction s as [|x s IH]; intros Hin; [by apply elem_of_nil in Hin|].
  destruct (decide (c ∈ s)) as [Hs|Hs].
  - destruct (IH Hs) as (a & b & -> & Hb). by exists (x :: a), b.
  - apply elem_of_cons in Hin as [->|?]; [|done]. by exists [], s.
Qed.
End PyFacts.

(** * Decomposition: [urlparse] and the parameters of the last segment *)

Lemma urlparse_unfold url scheme af st :
  urlparse url scheme af st =
  match urlsplit url scheme af st with
  | (Ok r, st') => (Ok (parse_of_split r), st')
  | (Raise e, st') => (Raise e, st')
  end.
Proof.
  unfold urlparse, mbind, M_bind, bind.
  by destruct (urlsplit url scheme af st) as [[r|e] st'].
Qed.

Lemma splitparams_last_segment u seg b q :
  ch "/" ∉ seg -> seg = b ++ ch ";" :: q -> ch ";" ∉ b ->
  _splitparams (u ++ ch "/" :: seg) = (u ++ ch "/" :: b, q).
Proof.
  intros Hseg -> Hb. unfold _splitparams.
  assert (Hc : Py.contains (ch "/") (u ++ ch "/" :: b ++ ch ";" :: q) = true).
  { apply contains_elem. set_solver. }
  rewrite Hc, rfind_app_last by done.
  replace (u ++ ch "/" :: b ++ ch ";" :: q)
    with (u ++ (ch "/" :: b) ++ ch ";" :: q) by done.
  rewrite find_app_first.
  2:{ apply not_elem_of_cons. split; [done | done]. }
  rewrite <- len_app.
  replace (u ++ (ch "/" :: b) ++ ch ";" :: q)
    with ((u ++ ch "/" :: b) ++ ch ";" :: q) by (by rewrite <- app_assoc).
  pose proof (len_nonneg (u ++ ch "/" :: b)).
  destruct (Z.ltb_spec (Py.len (u ++ ch "/" :: b)) 0); [lia|].
  by rewrite slice_to_app, slice_from_app_cons.
Qed.

Lemma splitparams_no_semicolon u seg :
  ch "/" ∉ seg -> ch ";" ∉ seg ->
  _splitparams (u ++ ch "/" :: seg) = (u ++ ch "/" :: seg, []).
Proof.
  intros Hseg Hs. unfold _splitparams.
  assert (Hc : Py.contains (ch "/") (u ++ ch "/" :: seg) = true).
  { apply contains_elem. set_solver. }
  rewrite Hc, rfind_app_last by done.
  rewrite find_app_none; [done|].
  apply not_elem_of_cons. by split.
Qed.

Lemma splitparams_no_slash b q :
  ch "/" ∉ b ++ ch ";" :: q -> ch ";" ∉ b ->
  _splitparams (b ++ ch ";" :: q) = (b, q).
Proof.
  intros Hs Hb. unfold _splitparams.
  apply contains_false in Hs. rewrite Hs.
  rewrite find0_first by done.
  by rewrite slice_to_app, slice_from_app_cons.
Qed.

(** C4, as the code has it: in a parameter-using scheme, a path that
    contains [;] is split at the FIRST [;] of its last segment (the text
    after the last [/]): the path is the text before that [;] and the
    params the text after it; if the last segment has no [;], params is
    empty and the path is left whole; a path without [/] is split at its
    first [;]. *)
Theorem urlparse_splits_params url scheme af st r :
  fst (urlsplit url scheme af st) = Ok r ->
  Py.mem (s_scheme r) uses_params = true ->
  ch ";" ∈ s_path r ->
  exists p,
    fst (urlparse url scheme af st) = Ok p /\
    (forall u seg,
        s_path r = u ++ ch "/" :: seg -> ch "/" ∉ seg ->
        (forall b q, seg = b ++ ch ";" :: q -> ch ";" ∉ b ->
                     path p = u ++ ch "/" :: b /\ params p = q) /\
        (ch ";" ∉ seg -> path p = s_path r /\ params p = [])) /\
    (ch "/" ∉ s_path r ->
     forall b q, s_path r = b ++ ch ";" :: q -> ch ";" ∉ b ->
                 path p = b /\ params p = q).
Proof.
  intros Hr Hs Hsemi. rewrite urlparse_unfold.
  destruct (urlsplit url scheme af st) as [[r'|e] st']; simpl in Hr; [|done].
  injection Hr as ->. exists (parse_of_split r). split; [done|].
  destruct r as [sch nl pth qu fr]; simpl in *.
  apply contains_elem in Hsemi. rewrite Hs, Hsemi. simpl.
  split.
  - intros u seg -> Hseg. split.
    + intros b q Hq Hb.
      by rewrite (splitparams_last_segment u seg b q).
    + intros Hn. by rewrite splitparams_no_semicolon.
  - intros Hns b q -> Hb. by rewrite splitparams_no_slash.
Qed.

Lemma urlparse_splits_params_witness :
  exists p,
    fst (urlparse (PStr (lit "http://a/b;c;d")) (PStr []) true initial_state)
      = Ok p /\
    (forall u seg,
        lit "/b;c;d" = u ++ ch "/" :: seg -> ch "/" ∉ seg ->
        (forall b q, seg = b ++ ch ";" :: q -> ch ";" ∉ b ->
                     path p = u ++ ch "/" :: b /\ params p = q) /\
        (ch ";" ∉ seg -> path p = lit "/b;c;d" /\ params p = [])) /\
    (ch "/" ∉ lit "/b;c;d" ->
     forall b q, lit "/b;c;d" = b ++ ch ";" :: q -> ch ";" ∉ b ->
                 path p = b /\ params p = q).
Proof.
  apply (urlparse_splits_params
           (PStr (lit "http://a/b;c;d")) (PStr []) true initial_state
           (mkSplit (lit "http") (lit "a") (lit "/b;c;d") [] [])).
  - vm_compute. reflexivity.
  - vm_compute. reflexivity.
  - apply contains_elem. vm_compute. reflexivity.
Defined.

(** C4, as the claim words it (split at the LAST [;] of the last
    segment), fails: [urlparse("http://a/b;c;d")] has path [/b] and
    params [c;d], not path [/b;c] and params [d]. *)
Lemma params_split_at_last_semicolon_fails : ~ params_split_at_last_semicolon.
Proof.
  intros Hclaim.
  destruct (Hclaim (PStr (lit "http://a/b;c;d")) (PStr []) true initial_state
              (mkSplit (lit "http") (lit "a") (lit "/b;c;d") [] [])
              (mkParse (lit "http") (lit "a") (lit "/b") (lit "c;d") [] [])
              eq_refl eq_refl
              ltac:(apply contains_elem; reflexivity) eq_refl
              [] (lit "b;c;d") (lit "b;c") (lit "d")
              eq_refl ltac:(apply contains_false; reflexivity)
              eq_refl ltac:(apply contains_false; reflexivity)) as [Hp _].
  discriminate Hp.
Qed.

(** * The parse cache is transparent *)

Lemma cache_ok_initial : cache_ok initial_state.
Proof. intros url sch af t1 t2 v Hl. simpl in Hl. by rewrite lookup_empty in Hl. Qed.

Lemma urlsplit_cached st url scheme af :
  cache_ok st ->
  fst (urlsplit url scheme af st)
    = urlsplit_compute (chars url) (chars scheme) af
  /\ cache_ok (snd (urlsplit url scheme af st)).
Proof.
  intros Hok. unfold urlsplit.
  destruct (_parse_cache st !! _) as [cached|] eqn:Hget.
  - split; [|done]. simpl. symmetry. by eapply Hok.
  - set (st0 := if Z.of_nat (size (_parse_cache st)) >=? MAX_CACHE_SIZE
                then snd (clear_cache st) else st).
    assert (Hok0 : cache_ok st0).
    { unfold st0. destruct (_ >=? _); [|done].
      intros ?????? Hl. simpl in Hl. by rewrite lookup_empty in Hl. }
    destruct (urlsplit_compute (chars url) (chars scheme) af) as [v|e] eqn:Hc;
      simpl; split; try done.
    intros url' sch' af' t1 t2 v' Hl. simpl in Hl.
    destruct (decide ((chars url, chars scheme, af, type_of url, type_of scheme)
                      = (url', sch', af', t1, t2))) as [Heq|Hne].
    + rewrite Heq, lookup_insert_eq in Hl. injection Hl as <-.
      by injection Heq as <- <- <- _ _.
    + rewrite lookup_insert_ne in Hl by done. by eapply Hok0.
Qed.

Lemma urlparse_cached st url scheme af :
  cache_ok st ->
  fst (urlparse url scheme af st)
    = urlparse_compute (chars url) (chars scheme) af
  /\ cache_ok (snd (urlparse url scheme af st)).
Proof.
  intros Hok. rewrite urlparse_unfold. unfold urlparse_compute.
  destruct (urlsplit_cached st url scheme af Hok) as [Hr Hst].
  destruct (urlsplit url scheme af st) as [[r|e] st']; simpl in *;
    by rewrite <- Hr.
Qed.

Lemma urljoin_unfold base url af st :
  urljoin base url af st =
  if Py.eqb base [] then (Ok url, st)
  else if Py.eqb url [] then (Ok base, st)
  else match urlparse (PStr base) (PStr []) af st with
       | (Raise e, st1) => (Raise e, st1)
       | (Ok b, st1) =>
           match urlparse (PStr url) (PStr (scheme b)) af st1 with
           | (Raise e, st2) => (Raise e, st2)
           | (Ok u, st2) => (Ok (join_parsed url b u), st2)
           end
       end.
Proof.
  unfold urljoin. destruct (Py.eqb base []); [done|].
  destruct (Py.eqb url []); [done|].
  unfold mbind, M_bind, bind.
  destruct (urlparse (PStr base) (PStr []) af st) as [[b|e] st1]; [|done].
  by destruct (urlparse (PStr url) (PStr (scheme b)) af st1) as [[u|e] st2].
Qed.

Lemma urljoin_cached st base url af :
  cache_ok st ->
  fst (urljoin base url af st) = urljoin_compute base url af
  /\ cache_ok (snd (urljoin base url af st)).
Proof.
  intros Hok. rewrite urljoin_unfold. unfold urljoin_compute.
  destruct (Py.eqb base []); [done|].
  destruct (Py.eqb url []); [done|].
  destruct (urlparse_cached st (PStr base) (PStr []) af Hok) as [Hb Hst1].
  destruct (urlparse (PStr base) (PStr []) af st) as [[b|e] st1];
    simpl in *; rewrite <- Hb; [|done].
  destruct (urlparse_cached st1 (PStr url) (PStr (scheme b)) af Hst1)
    as [Hu Hst2].
  destruct (urlparse (PStr url) (PStr (scheme b)) af st1) as [[u|e] st2];
    simpl in *; by rewrite <- Hu.
Qed.

Lemma reachable_cache_ok st : reachable st -> cache_ok st.
Proof.
  induction 1 as [|st url sch af _ IH|st bs safe _ IH|st _ IH].
  - apply cache_ok_initial.
  - by apply urlsplit_cached.
  - unfold quote_from_bytes.
    destruct bs as [b|u]; [|done].
    destruct (Py.eqb b []); [done|].
    destruct (Py.eqb _ []).
    + by destruct (ascii_decode b).
    + simpl. destruct (quote_chars _ b). done.
  - intros ?????? Hl. simpl in Hl. by rewrite lookup_empty in Hl.
Qed.

(** * Resolution: references of a foreign scheme *)

(** C5, as the code has it: when the reference's scheme differs from
    the base's, or is not a scheme with relative resolution, [urljoin]
    returns the reference itself, character for character. *)
Theorem urljoin_foreign_reference_unchanged base url af st b u :
  base ≠ [] -> url ≠ [] ->
  fst (urlparse (PStr base) (PStr []) af st) = Ok b ->
  fst (urlparse (PStr url) (PStr (scheme b)) af
         (snd (urlparse (PStr base) (PStr []) af st))) = Ok u ->
  scheme u ≠ scheme b \/ Py.mem (scheme u) uses_relative = false ->
  fst (urljoin base url af st) = Ok url.
Proof.
  intros Hb Hu Hpb Hpu Hf. rewrite urljoin_unfold.
  apply eqb_false in Hb, Hu. rewrite Hb, Hu.
  destruct (urlparse (PStr base) (PStr []) af st) as [[b'|e] st1];
    simpl in Hpb, Hpu; [|done].
  injection Hpb as ->.
  destruct (urlparse (PStr url) (PStr (scheme b)) af st1) as [[u'|e] st2];
    simpl in Hpu; [|done].
  injection Hpu as ->. simpl. f_equal.
  unfold join_parsed. destruct b, u; simpl in *.
  destruct Hf as [Hne| ->].
  - apply eqb_false in Hne. by rewrite Hne.
  - by rewrite orb_true_r.
Qed.

Lemma foreign_reference_parses :
  fst (urlparse (PStr (lit "http://a/b")) (PStr []) true initial_state)
    = Ok (mkParse (lit "http") (lit "a") (lit "/b") [] [] [])
  /\ fst (urlparse (PStr (lit "MAILTO:x")) (PStr (lit "http")) true
           (snd (urlparse (PStr (lit "http://a/b")) (PStr []) true
                   initial_state)))
    = Ok (mkParse (lit "mailto") [] (lit "x") [] [] []).
Proof.
  destruct (urlparse_cached initial_state (PStr (lit "http://a/b")) (PStr [])
              true cache_ok_initial) as [H1 Hok].
  split.
  - rewrite H1. vm_compute. reflexivity.
  - rewrite (proj1 (urlparse_cached _ (PStr (lit "MAILTO:x"))
                      (PStr (lit "http")) true Hok)).
    vm_compute. reflexivity.
Qed.

Lemma urljoin_foreign_reference_unchanged_witness :
  fst (urljoin (lit "http://a/b") (lit "MAILTO:x") true initial_state)
  = Ok (lit "MAILTO:x").
Proof.
  apply (urljoin_foreign_reference_unchanged
           (lit "http://a/b") (lit "MAILTO:x") true initial_state
           (mkParse (lit "http") (lit "a") (lit "/b") [] [] [])
           (mkParse (lit "mailto") [] (lit "x") [] [] [])).
  - discriminate.
  - discriminate.
  - exact (proj1 foreign_reference_parses).
  - exact (proj2 foreign_reference_parses).
  - left. discriminate.
Defined.

(** C5, as the claim words it (the reconstruction of the reference is
    returned), fails: joining [MAILTO:x] to [http://a/b] returns
    [MAILTO:x], while its reconstruction is [mailto:x]. *)
Lemma foreign_reference_is_reconstructed_fails :
  ~ foreign_reference_is_reconstructed.
Proof.
  intros Hclaim.
  specialize (Hclaim (lit "http://a/b") (lit "MAILTO:x") true initial_state
                (mkParse (lit "http") (lit "a") (lit "/b") [] [] [])
                (mkParse (lit "mailto") [] (lit "x") [] [] [])
                ltac:(discriminate) ltac:(discriminate)
                (proj1 foreign_reference_parses)
                (proj2 foreign_reference_parses)
                ltac:(left; discriminate)).
  rewrite (proj1 (urljoin_cached _ _ _ _ cache_ok_initial)) in Hclaim.
  vm_compute in Hclaim. discriminate Hclaim.
Qed.

(** * Decomposition: the authority and its brackets *)

Lemma urlsplit_compute_scheme_split url scheme af :
  urlsplit_compute url scheme af =
  split_after_scheme (fst (scheme_split url scheme))
                     (snd (scheme_split url scheme)) af.
Proof.
  unfold urlsplit_compute, scheme_split.
  destruct (_ >? 0); [|done].
  destruct (Py.eqb _ (lit "http")); [done|].
  by destruct (forallb _ _).
Qed.

Lemma index_app_skip c a b :
  c ∉ a -> Py.index c (a ++ b) = (fun k => length a + k)%nat <$> Py.index c b.
Proof.
  induction a as [|x a IH]; intros Hn; simpl.
  - by destruct (Py.index c b).
  - apply not_elem_of_cons in Hn as [Hx Ha].
    destruct (N.eqb_spec x c) as [->|_]; [done|].
    rewrite (IH Ha). by destruct (Py.index c b).
Qed.

(** From offset [len a], a character that is not in [b1] is found at
    or after the end of [b1], or not at all. *)
Lemma find_skip c a b1 b2 :
  c ∉ b1 ->
  Py.find c (a ++ b1 ++ b2) (Py.len a) = -1
  \/ Py.len a + Py.len b1 <= Py.find c (a ++ b1 ++ b2) (Py.len a).
Proof.
  intros Hn. unfold Py.find. rewrite clamp_in.
  - rewrite to_nat_len, drop_app_length, index_app_skip by done.
    destruct (Py.index c b2); simpl; [right|by left].
    unfold Py.len. lia.
  - rewrite len_app. pose proof (len_nonneg a).
    pose proof (len_nonneg (b1 ++ b2)). lia.
Qed.

Lemma slice_app_middle a b c :
  Py.slice (a ++ b ++ c) (Py.len a) (Py.len a + Py.len b) = b.
Proof.
  unfold Py.slice.
  pose proof (len_nonneg a). pose proof (len_nonneg b). pose proof (len_nonneg c).
  rewrite !clamp_in by (rewrite !len_app; lia).
  rewrite to_nat_len, drop_app_length.
  replace (Py.len a + Py.len b - Py.len a) with (Py.len b) by lia.
  by rewrite to_nat_len, take_app_length.
Qed.

Lemma delims_eq : lit "/?#" = [ch "/"; ch "?"; ch "#"].
Proof. reflexivity. Qed.

Lemma delims_elem c : c ∈ lit "/?#" <-> c = ch "/" \/ c = ch "?" \/ c = ch "#".
Proof.
  rewrite delims_eq, !elem_of_cons, elem_of_nil. tauto.
Qed.

Lemma splitnetloc_authority auth tail :
  (forall c, c ∈ lit "/?#" -> c ∉ auth) ->
  (tail = [] \/ exists c t, tail = c :: t /\ c ∈ lit "/?#") ->
  _splitnetloc (lit "//" ++ auth ++ tail) 2 = (auth, tail).
Proof.
  intros Hauth Htail. unfold _splitnetloc.
  set (url := lit "//" ++ auth ++ tail).
  assert (Hlen : Py.len url = 2 + Py.len auth + Py.len tail).
  { unfold url. rewrite !len_app. change (Py.len (lit "//")) with 2. lia. }
  pose proof (len_nonneg auth) as Hla. pose proof (len_nonneg tail) as Hlt.
  assert (Hdelim : fold_left
            (fun delim c =>
               let wdelim := Py.find c url 2 in
               if wdelim >=? 0 then Z.min delim wdelim else delim)
            (lit "/?#") (Py.len url) = 2 + Py.len auth).
  { rewrite delims_eq. cbn [fold_left].
    assert (Hfind : forall c, c ∈ lit "/?#" ->
              Py.find c url 2 = -1 \/ 2 + Py.len auth <= Py.find c url 2).
    { intros c Hc. apply (find_skip c (lit "//") auth tail). by apply Hauth. }
    destruct Htail as [->|(d & t & -> & Hd)].
    - assert (Hnone : forall c, c ∈ lit "/?#" -> Py.find c url 2 = -1).
      { intros c Hc. unfold url. rewrite app_nil_r.
        apply (find_app_none c (lit "//") auth). by apply Hauth. }
      rewrite !Hnone by (apply delims_elem; tauto).
      simpl. rewrite Hlen. unfold Py.len. simpl. lia.
    - assert (Hd' : Py.find d url 2 = 2 + Py.len auth).
      { apply (find_app_first d (lit "//") auth t). by apply Hauth. }
      pose proof (Hfind (ch "/") ltac:(apply delims_elem; tauto)) as H1.
      pose proof (Hfind (ch "?") ltac:(apply delims_elem; tauto)) as H2.
      pose proof (Hfind (ch "#") ltac:(apply delims_elem; tauto)) as H3.
      apply delims_elem in Hd.
      assert (Hlt' : 1 <= Py.len (d :: t)) by (unfold Py.len; simpl; lia).
      repeat match goal with
             | |- context [?x >=? 0] => destruct (Z.geb_spec x 0)
             end;
        destruct Hd as [->|[->| ->]]; lia. }
  cbv zeta in Hdelim. rewrite Hdelim. f_equal.
  - apply (slice_app_middle (lit "//") auth tail).
  - unfold url. rewrite app_assoc.
    replace (2 + Py.len auth) with (Py.len (lit "//" ++ auth))
      by (by rewrite len_app).
    apply slice_from_app.
Qed.

Lemma slice_to_2_slashes rest :
  Py.slice_to rest 2 = lit "//" <-> exists t, rest = lit "//" ++ t.
Proof.
  split.
  - destruct rest as [|x [|y t]]; try done.
    intros Heq. exists t. unfold Py.slice_to in Heq.
    rewrite clamp_in in Heq by (unfold Py.len; simpl; lia).
    simpl in Heq. by injection Heq as -> ->.
  - intros [t ->]. unfold Py.slice_to. rewrite len_app.
    change (Py.len (lit "//")) with 2. pose proof (len_nonneg t).
    rewrite clamp_in by lia. reflexivity.
Qed.

(** Every text has an authority part after [//]: the longest prefix
    free of the three delimiters. *)
Lemma authority_exists t :
  exists auth tail,
    t = auth ++ tail /\
    (forall c, c ∈ lit "/?#" -> c ∉ auth) /\
    (tail = [] \/ exists c t', tail = c :: t' /\ c ∈ lit "/?#").
Proof.
  induction t as [|x t (auth & tail & -> & Ha & Ht)].
  - exists [], []. split_and!; [done| |by left].
    intros c _. apply not_elem_of_nil.
  - destruct (decide (x ∈ lit "/?#")) as [Hx|Hx].
    + exists [], (x :: auth ++ tail). split_and!; [done| |].
      * intros c _. apply not_elem_of_nil.
      * right. by exists x, (auth ++ tail).
    + exists (x :: auth), tail. split_and!; [done| |done].
      intros c Hc. apply not_elem_of_cons. split; [|by apply Ha].
      by intros ->.
Qed.

Lemma unbalanced_brackets_spec auth :
  unbalanced_brackets auth = true <-> unbalanced auth.
Proof.
  unfold unbalanced_brackets, unbalanced.
  rewrite orb_true_iff, !andb_true_iff, !negb_true_iff.
  by rewrite !contains_elem, !contains_false.
Qed.

Lemma split_after_scheme_raises sch rest af :
  (split_after_scheme sch rest af = Raise (ValueError "Invalid IPv6 URL")
   <-> exists auth, authority_of rest auth /\ unbalanced auth)
  /\ (split_after_scheme sch rest af = Raise (ValueError "Invalid IPv6 URL")
      \/ exists v, split_after_scheme sch rest af = Ok v).
Proof.
  unfold split_after_scheme.
  destruct (Py.eqb (Py.slice_to rest 2) (lit "//")) eqn:Hs.
  - apply eqb_eq, slice_to_2_slashes in Hs as [t ->].
    destruct (authority_exists t) as (auth & tail & -> & Ha & Ht).
    rewrite splitnetloc_authority by done.
    destruct (unbalanced_brackets auth) eqn:Hu.
    + split; [|by left]. split; [|done]. intros _. exists auth. split.
      * by exists tail.
      * by apply unbalanced_brackets_spec.
    + split.
      * split; [by repeat case_match|].
        intros (auth' & (tail' & Heq & Ha' & Ht') & Hun).
        pose proof (splitnetloc_authority auth' tail' Ha' Ht') as Hs'.
        rewrite <- Heq, splitnetloc_authority in Hs' by done.
        injection Hs' as <- <-.
        apply unbalanced_brackets_spec in Hun. congruence.
      * right. repeat case_match; eauto.
  - split.
    + split; [by repeat case_match|].
      intros (auth & (tail & -> & _) & _).
      apply eqb_false in Hs. exfalso. apply Hs.
      apply slice_to_2_slashes. by eexists.
    + right. repeat case_match; eauto.
Qed.

(** C1: [urlsplit] raises the invalid-authority error exactly when the
    text that remains after the scheme begins with [//] and the
    authority that follows has [[] without []] or []] without [[]; on
    every other input it returns a split result. *)
Theorem urlsplit_raises_iff_unbalanced_authority url scheme af st :
  cache_ok st ->
  let rest := snd (scheme_split (chars url) (chars scheme)) in
  (fst (urlsplit url scheme af st) = Raise (ValueError "Invalid IPv6 URL")
   <-> exists auth, authority_of rest auth /\ unbalanced auth)
  /\ (~ (exists auth, authority_of rest auth /\ unbalanced auth) ->
      exists v, fst (urlsplit url scheme af st) = Ok v).
Proof.
  intros Hok rest.
  rewrite (proj1 (urlsplit_cached st url scheme af Hok)).
  rewrite urlsplit_compute_scheme_split. fold rest.
  destruct (split_after_scheme_raises
              (fst (scheme_split (chars url) (chars scheme))) rest af)
    as [Hiff Htotal].
  split; [done|]. intros Hno.
  destruct Htotal as [Hr|Hv]; [|done].
  exfalso. apply Hno. by apply Hiff.
Qed.

Lemma urlsplit_raises_iff_unbalanced_authority_witness :
  let rest :=
    snd (scheme_split (chars (PStr (lit "http://[::1/x"))) (chars (PStr []))) in
  (fst (urlsplit (PStr (lit "http://[::1/x")) (PStr []) true initial_state)
     = Raise (ValueError "Invalid IPv6 URL")
   <-> exists auth, authority_of rest auth /\ unbalanced auth)
  /\ (~ (exists auth, authority_of rest auth /\ unbalanced auth) ->
      exists v,
        fst (urlsplit (PStr (lit "http://[::1/x")) (PStr []) true initial_state)
          = Ok v).
Proof.
  apply (urlsplit_raises_iff_unbalanced_authority
           (PStr (lit "http://[::1/x")) (PStr []) true initial_state).
  intros url sch af t1 t2 v Hl. simpl in Hl. rewrite lookup_empty in Hl.
  discriminate Hl.
Defined.

(** * The single-delimiter helpers *)

(** A text that contains [c] is cut by [find] at its first [c]. *)
Lemma cut_at_first c a b :
  c ∉ a ->
  Py.slice_to (a ++ c :: b) (Py.find c (a ++ c :: b) 0) = a
  /\ Py.slice_from (a ++ c :: b) (Py.find c (a ++ c :: b) 0 + 1) = b.
Proof.
  intros Ha. rewrite find0_first by done.
  by rewrite slice_to_app, slice_from_app_cons.
Qed.

Lemma contains_middle c a b : Py.contains c (a ++ c :: b) = true.
Proof. apply contains_elem. set_solver. Qed.

(** [splittype] and [splituser] cut their argument at its first [:]
    (resp. [@]): the two parts and the delimiter make up the argument
    again, and the first part is free of the delimiter; without the
    delimiter the first part is [None] and the second the argument. *)
Theorem splittype_splituser_cut_at_first a b s :
  (ch ":" ∉ a -> splittype (a ++ ch ":" :: b) = (Some a, b))
  /\ (ch ":" ∉ s -> splittype s = (None, s))
  /\ (ch "@" ∉ a -> splituser (a ++ ch "@" :: b) = (Some a, b))
  /\ (ch "@" ∉ s -> splituser s = (None, s)).
Proof.
  unfold splittype, splituser. split_and!.
  - intros Ha. rewrite contains_middle.
    by destruct (cut_at_first (ch ":") a b Ha) as [-> ->].
  - intros Hs. apply contains_false in Hs. by rewrite Hs.
  - intros Ha. rewrite contains_middle.
    by destruct (cut_at_first (ch "@") a b Ha) as [-> ->].
  - intros Hs. apply contains_false in Hs. by rewrite Hs.
Qed.

Lemma splittype_splituser_cut_at_first_witness :
  splittype (lit "http" ++ ch ":" :: lit "//a:b@h/p")
    = (Some (lit "http"), lit "//a:b@h/p")
  /\ splituser (lit "a:b" ++ ch "@" :: lit "h@x")
    = (Some (lit "a:b"), lit "h@x").
Proof.
  split.
  - apply (proj1 (splittype_splituser_cut_at_first
                    (lit "http") (lit "//a:b@h/p") [])).
    apply contains_false. reflexivity.
  - apply (proj1 (proj2 (proj2 (splittype_splituser_cut_at_first
                                  (lit "a:b") (lit "h@x") [])))).
    apply contains_false. reflexivity.
Defined.

(** [splitpasswd], [splitquery], [splittag] and [splitvalue] cut their
    argument at its first [:], [?], [#], [=]: the part before it, free
    of the delimiter, and the part after it; without the delimiter the
    second part is [None] and the first the whole argument. *)
Theorem tail_helpers_cut_at_first a b s :
  (ch ":" ∉ a -> splitpasswd (a ++ ch ":" :: b) = (a, Some b))
  /\ (ch ":" ∉ s -> splitpasswd s = (s, None))
  /\ (ch "?" ∉ a -> splitquery (a ++ ch "?" :: b) = (a, Some b))
  /\ (ch "?" ∉ s -> splitquery s = (s, None))
  /\ (ch "#" ∉ a -> splittag (a ++ ch "#" :: b) = (a, Some b))
  /\ (ch "#" ∉ s -> splittag s = (s, None))
  /\ (ch "=" ∉ a -> splitvalue (a ++ ch "=" :: b) = (a, Some b))
  /\ (ch "=" ∉ s -> splitvalue s = (s, None)).
Proof.
  unfold splitpasswd, splitquery, splittag, splitvalue.
  split_and!;
    try (intros Hs; apply contains_false in Hs; by rewrite Hs);
    intros Ha; rewrite contains_middle;
    match goal with
    | |- context [Py.find ?c _ 0] =>
        by destruct (cut_at_first c a b Ha) as [-> ->]
    end.
Qed.

Lemma tail_helpers_cut_at_first_witness :
  splitquery (lit "/path" ++ ch "?" :: lit "a=1?b") = (lit "/path", Some (lit "a=1?b"))
  /\ splitvalue (lit "attr") = (lit "attr", None).
Proof.
  split.
  - apply (tail_helpers_cut_at_first (lit "/path") (lit "a=1?b") []).
    apply contains_false. reflexivity.
  - apply (tail_helpers_cut_at_first [] [] (lit "attr")).
    apply contains_false. reflexivity.
Defined.

(** [join] undoes [split]. *)
Lemma split_nonempty c s : Py.split c s ≠ [].
Proof. destruct s as [|x t]; simpl; [done|]. by repeat case_match. Qed.

Lemma join_split c s : Py.join [c] (Py.split c s) = s.
Proof.
  induction s as [|x t IH]; [done|]. simpl.
  destruct (N.eqb_spec x c) as [->|Hne].
  - pose proof (split_nonempty c t).
    destruct (Py.split c t) as [|p r] eqn:E; [done|].
    simpl in *. by rewrite IH.
  - destruct (Py.split c t) as [|p r] eqn:E.
    + by destruct (split_nonempty c t).
    + destruct r; simpl in *; by rewrite <- IH.
Qed.

Lemma split_pieces_free c s : Forall (fun p => c ∉ p) (Py.split c s).
Proof.
  induction s as [|x t IH]; simpl.
  - repeat constructor. apply not_elem_of_nil.
  - destruct (N.eqb_spec x c) as [->|Hne].
    + constructor; [apply not_elem_of_nil | done].
    + destruct (Py.split c t) as [|p r]; [|inversion IH; subst];
        constructor; try done; apply not_elem_of_cons; split; try done;
        try congruence; apply not_elem_of_nil.
Qed.

(** [splitattr] loses nothing: joining the first word and the list of
    attributes with [;] gives the argument again, and no word contains
    a [;]. *)
Theorem splitattr_join url :
  Py.join (lit ";") (fst (splitattr url) :: snd (splitattr url)) = url
  /\ Forall (fun w => ch ";" ∉ w) (fst (splitattr url) :: snd (splitattr url)).
Proof.
  unfold splitattr. simpl.
  pose proof (split_nonempty (ch ";") url) as Hne.
  pose proof (join_split (ch ";") url) as Hj.
  pose proof (split_pieces_free (ch ";") url) as Hf.
  destruct (Py.split (ch ";") url) as [|w ws]; [done|]. simpl. by split.
Qed.

(** [splithost] fails with [IndexError] on the empty text and on [/],
    and on nothing else; on [//host...] it returns the text between
    the two slashes and the next [/], and the rest from that [/] on. *)
Theorem splithost_cases url :
  (splithost url = inl IndexError <-> url = [] \/ url = lit "/")
  /\ (forall host rest,
        url = lit "//" ++ host ++ rest -> ch "/" ∉ host ->
        rest = [] \/ (exists t, rest = ch "/" :: t) ->
        splithost url = inr (Some host, rest)).
Proof.
  split.
  - unfold splithost, getitem. destruct url as [|c0 [|c1 t]]; simpl.
    + split; [by left | done].
    + destruct (N.eqb_spec c0 (ch "/")) as [->|Hne]; simpl.
      * split; [by right | done].
      * split; [done|]. intros [?|[= ?]]; done.
    + split.
      * repeat case_match; done.
      * intros [?|?]; done.
  - intros host rest -> Hhost Hrest. unfold splithost, getitem.
    change (lit "//" ++ host ++ rest) with (ch "/" :: ch "/" :: host ++ rest).
    cbn [lookup list_lookup]. rewrite N.eqb_refl. cbn [negb].
    change (ch "/" :: ch "/" :: host ++ rest) with (lit "//" ++ host ++ rest).
    change 2 with (Py.len (lit "//")).
    destruct Hrest as [->|[t ->]].
    + rewrite app_nil_r, find_app_none by done.
      change (-1 <? 0) with true. cbv iota.
      by rewrite slice_from_app.
    + rewrite find_app_first by done.
      pose proof (len_nonneg host).
      destruct (Z.ltb_spec (Py.len (lit "//") + Py.len host) 0);
        [change (Py.len (lit "//")) with 2 in *; lia|].
      rewrite slice_app_middle. f_equal. f_equal.
      rewrite app_assoc, <- len_app. apply slice_from_app.
Qed.

Lemma splithost_cases_witness :
  splithost (lit "//host:80/path?q") = inr (Some (lit "host:80"), lit "/path?q").
Proof.
  apply (proj2 (splithost_cases (lit "//host:80/path?q"))
           (lit "host:80") (lit "/path?q")).
  - reflexivity.
  - apply contains_false. reflexivity.
  - right. by exists (lit "path?q").
Defined.

(** * [splitport] and [splitnport] *)

Lemma find0_nonneg_elem c s : 0 <= Py.find c s 0 -> c ∈ s.
Proof.
  intros Hf. destruct (decide (c ∈ s)) as [|Hn]; [done|].
  rewrite find0_none in Hf by done. lia.
Qed.

Lemma find0_before c a b : c ∈ a -> Py.find c (a ++ b) 0 < Py.len a.
Proof.
  intros Ha. destruct (elem_split_first c a Ha) as (a1 & a2 & -> & Hn).
  rewrite <- app_assoc. simpl. rewrite find0_first by done.
  rewrite len_app. unfold Py.len. simpl. lia.
Qed.

Lemma isdigit_elem s c : isdigit s = true -> c ∈ s -> (48 <= c <= 57)%N.
Proof.
  unfold isdigit. rewrite andb_true_iff, forallb_forall.
  intros [_ Hall] Hc. apply list_elem_of_In, Hall in Hc.
  apply andb_true_iff in Hc as [H1 H2].
  apply N.leb_le in H1, H2. lia.
Qed.

Lemma splitport_without_bracket host :
  ch "[" ∉ host -> last host ≠ Some (ch "]") ->
  splitport host = (Some host, VNone).
Proof.
  intros Hb Hl. unfold splitport.
  assert (Hlast : match last host with
                  | Some c => (c =? ch "]")%N
                  | None => false
                  end = false).
  { destruct (last host) as [c|]; [|done].
    apply N.eqb_neq. congruence. }
  rewrite Hlast, andb_false_r.
  destruct (Py.contains (ch ":") host) eqn:Hc; [|done].
  apply contains_elem in Hc.
  destruct (elem_split_last _ _ Hc) as (a & b & -> & Hnb).
  rewrite rfind_app_last, find0_none by done.
  pose proof (len_nonneg a).
  destruct (Z.gtb_spec (Py.len a) (-1)); [done | lia].
Qed.

(** [splitport] never splits a numeric port off: the port it returns is
    never an integer; and a host without [[] that does not end in []]
    comes back whole, with port [None], whatever follows its last [:].
    [splitnport] then answers such a host with the default port. *)
Theorem splitport_never_numeric host :
  (forall h n, splitport host ≠ (h, VInt n))
  /\ (ch "[" ∉ host -> last host ≠ Some (ch "]") ->
      splitport host = (Some host, VNone)
      /\ forall int_of_text defport,
           splitnport int_of_text host defport = (Some host, defport)).
Proof.
  split.
  - intros h n. unfold splitport.
    destruct (_ && _); [done|].
    destruct (Py.contains (ch ":") host) eqn:Hc; [|done].
    apply contains_elem in Hc.
    destruct (elem_split_last _ _ Hc) as (a & b & -> & Hnb).
    rewrite rfind_app_last by done.
    destruct (Z.gtb_spec (Py.len a) (Py.find (ch "[") (a ++ ch ":" :: b) 0))
      as [|Hle]; [done|].
    destruct (_ && _); [done|].
    rewrite slice_from_app_cons, slice_to_app.
    destruct (negb (Py.eqb b []) && isdigit b) eqn:Hd; [|done].
    exfalso. apply andb_true_iff in Hd as [_ Hd].
    pose proof (len_nonneg a).
    assert (Hin : ch "[" ∈ a ++ ch ":" :: b) by (apply find0_nonneg_elem; lia).
    destruct (decide (ch "[" ∈ a)) as [Ha|Ha].
    + pose proof (find0_before (ch "[") a (ch ":" :: b) Ha). lia.
    + apply elem_of_app in Hin as [?|Hin]; [done|].
      apply elem_of_cons in Hin as [?|Hin]; [done|].
      pose proof (isdigit_elem b (ch "[") Hd Hin) as Hr.
      change (ch "[") with 91%N in Hr. lia.
  - intros Hb Hl. split; [by apply splitport_without_bracket|].
    intros int_of_text defport. unfold splitnport.
    by rewrite splitport_without_bracket.
Qed.

Lemma splitport_never_numeric_witness :
  splitport (lit "host:80") = (Some (lit "host:80"), VNone)
  /\ forall int_of_text defport,
       splitnport int_of_text (lit "host:80") defport
       = (Some (lit "host:80"), defport).
Proof.
  apply (proj2 (splitport_never_numeric (lit "host:80"))).
  - apply contains_false. reflexivity.
  - discriminate.
Defined.

(** * The accessors of the authority *)

Lemma rsplit1_app c a b : c ∉ b -> rsplit1 c (a ++ c :: b) = (a, b).
Proof.
  intros Hb. unfold rsplit1. rewrite rindex_app_last by done.
  rewrite take_app_length.
  replace (a ++ c :: b) with ((a ++ [c]) ++ b) by (by rewrite <- app_assoc).
  replace (S (length a)) with (length (a ++ [c]))
    by (rewrite length_app; simpl; lia).
  by rewrite drop_app_length.
Qed.

(** [username] and [password] read the text before the LAST [@] of the
    authority, cut at its first [:]: user and password when it has a
    [:], the user alone when it has none, and neither without an [@]. *)
Theorem username_password_of_userinfo hostport :
  ch "@" ∉ hostport ->
  (forall u p, ch ":" ∉ u ->
     username ((u ++ ch ":" :: p) ++ ch "@" :: hostport) = Some u
     /\ password ((u ++ ch ":" :: p) ++ ch "@" :: hostport) = Some p)
  /\ (forall u, ch ":" ∉ u ->
        username (u ++ ch "@" :: hostport) = Some u
        /\ password (u ++ ch "@" :: hostport) = None)
  /\ username hostport = None /\ password hostport = None.
Proof.
  intros Hhp. unfold username, password. split_and!.
  - intros u p Hu. rewrite contains_middle, rsplit1_app by done. simpl.
    by rewrite contains_middle, split1_app.
  - intros u Hu. rewrite contains_middle, rsplit1_app by done. simpl.
    apply contains_false in Hu. by rewrite Hu.
  - apply contains_false in Hhp. by rewrite Hhp.
  - apply contains_false in Hhp. by rewrite Hhp.
Qed.

Lemma username_password_of_userinfo_witness :
  username ((lit "joe" ++ ch ":" :: lit "p@ss:w") ++ ch "@" :: lit "host:80")
    = Some (lit "joe")
  /\ password ((lit "joe" ++ ch ":" :: lit "p@ss:w") ++ ch "@" :: lit "host:80")
    = Some (lit "p@ss:w").
Proof.
  apply (proj1 (username_password_of_userinfo (lit "host:80")
                  ltac:(apply contains_false; reflexivity))).
  apply contains_false. reflexivity.
Defined.

Lemma split1_fst_free c s : c ∉ fst (Py.split1 c s).
Proof.
  unfold Py.split1. destruct (Py.index c s) as [k|] eqn:E; simpl.
  - destruct (index_Some _ _ _ E) as (a & b & -> & Ha & <-).
    by rewrite take_app_length.
  - by apply index_None.
Qed.

Lemma split1_fst_subset c s x : x ∈ fst (Py.split1 c s) -> x ∈ s.
Proof.
  unfold Py.split1. destruct (Py.index c s) as [k|]; simpl; [|done].
  intros Hx. rewrite <- (take_drop k s). apply elem_of_app. by left.
Qed.

Lemma last_item_elem (l : list text) : l ≠ [] -> last_item l ∈ l.
Proof.
  intros Hne. unfold last_item.
  destruct (exists_last Hne) as (l' & x & ->).
  rewrite last_last. apply elem_of_app. right. by left.
Qed.

(** [hostname] never contains [@] or [:]. *)
Theorem hostname_has_no_at_nor_colon netloc :
  (ch "@" ∉ hostname netloc) /\ (ch ":" ∉ hostname netloc).
Proof.
  unfold hostname.
  destruct (_ || _) eqn:Hcond.
  - split; [|apply split1_fst_free].
    intros Hin. apply split1_fst_subset in Hin.
    pose proof (split_pieces_free (ch "@") netloc) as Hf.
    rewrite Forall_forall in Hf.
    apply (Hf _ (last_item_elem _ (split_nonempty _ _)) Hin).
  - apply orb_false_iff in Hcond as [_ Hcolon].
    apply contains_false in Hcolon.
    destruct (Py.contains (ch "@") netloc) eqn:Hat.
    + apply contains_elem in Hat.
      destruct (elem_split_last _ _ Hat) as (a & b & -> & Hb).
      rewrite rsplit1_app by done. simpl. split; [done|].
      intros Hin. apply Hcolon. apply elem_of_app. right. by right.
    + apply contains_false in Hat. by split.
Qed.

(** * [_splitnetloc] *)

Lemma splitnetloc_at pre auth tail :
  (forall c, c ∈ lit "/?#" -> c ∉ auth) ->
  (tail = [] \/ exists c t, tail = c :: t /\ c ∈ lit "/?#") ->
  _splitnetloc (pre ++ auth ++ tail) (Py.len pre) = (auth, tail).
Proof.
  intros Hauth Htail. unfold _splitnetloc.
  set (url := pre ++ auth ++ tail).
  assert (Hlen : Py.len url = Py.len pre + Py.len auth + Py.len tail).
  { unfold url. rewrite !len_app. lia. }
  pose proof (len_nonneg pre) as Hlp.
  pose proof (len_nonneg auth) as Hla. pose proof (len_nonneg tail) as Hlt.
  assert (Hdelim : fold_left
            (fun delim c =>
               if Py.find c url (Py.len pre) >=? 0
               then Z.min delim (Py.find c url (Py.len pre)) else delim)
            (lit "/?#") (Py.len url) = Py.len pre + Py.len auth).
  { rewrite delims_eq. cbn [fold_left].
    assert (Hfind : forall c, c ∈ lit "/?#" ->
              Py.find c url (Py.len pre) = -1
              \/ Py.len pre + Py.len auth <= Py.find c url (Py.len pre)).
    { intros c Hc. apply (find_skip c pre auth tail). by apply Hauth. }
    destruct Htail as [->|(d & t & -> & Hd)].
    - assert (Hnone : forall c, c ∈ lit "/?#" ->
                Py.find c url (Py.len pre) = -1).
      { intros c Hc. unfold url. rewrite app_nil_r.
        apply (find_app_none c pre auth). by apply Hauth. }
      rewrite !Hnone by (apply delims_elem; tauto).
      simpl. rewrite Hlen. unfold Py.len at 3. simpl. lia.
    - assert (Hd' : Py.find d url (Py.len pre) = Py.len pre + Py.len auth).
      { apply (find_app_first d pre auth t). by apply Hauth. }
      pose proof (Hfind (ch "/") ltac:(apply delims_elem; tauto)) as H1.
      pose proof (Hfind (ch "?") ltac:(apply delims_elem; tauto)) as H2.
      pose proof (Hfind (ch "#") ltac:(apply delims_elem; tauto)) as H3.
      apply delims_elem in Hd.
      assert (Hlt' : 1 <= Py.len (d :: t)) by (unfold Py.len; simpl; lia).
      repeat match goal with
             | |- context [?x >=? 0] => destruct (Z.geb_spec x 0)
             end;
        destruct Hd as [->|[->| ->]]; lia. }
  rewrite Hdelim. f_equal.
  - apply (slice_app_middle pre auth tail).
  - unfold url. rewrite app_assoc, <- len_app. apply slice_from_app.
Qed.

(** [_splitnetloc(url, start)] cuts [url[start:]] at the first of [/],
    [?], [#]: the two parts make up [url[start:]], the first contains
    none of the three, the second is empty or begins with one. *)
Theorem splitnetloc_partition url start :
  0 <= start <= Py.len url ->
  Py.slice_from url start
    = fst (_splitnetloc url start) ++ snd (_splitnetloc url start)
  /\ (forall c, c ∈ lit "/?#" -> c ∉ fst (_splitnetloc url start))
  /\ (snd (_splitnetloc url start) = []
      \/ exists c t, snd (_splitnetloc url start) = c :: t /\ c ∈ lit "/?#").
Proof.
  intros Hs.
  set (pre := take (Z.to_nat start) url).
  assert (Hpre : Py.len pre = start).
  { unfold pre, Py.len in *. rewrite length_take. lia. }
  destruct (authority_exists (drop (Z.to_nat start) url))
    as (auth & tail & Heq & Ha & Ht).
  assert (Hurl : url = pre ++ auth ++ tail).
  { unfold pre. by rewrite <- Heq, take_drop. }
  clearbody pre. clear Heq. subst url start.
  rewrite (splitnetloc_at pre auth tail Ha Ht). simpl.
  split_and!; [|done|done].
  apply slice_from_app.
Qed.

Lemma splitnetloc_partition_witness :
  Py.slice_from (lit "//www.example.org?x=/y") 2
    = fst (_splitnetloc (lit "//www.example.org?x=/y") 2)
      ++ snd (_splitnetloc (lit "//www.example.org?x=/y") 2)
  /\ (forall c, c ∈ lit "/?#" ->
        c ∉ fst (_splitnetloc (lit "//www.example.org?x=/y") 2))
  /\ (snd (_splitnetloc (lit "//www.example.org?x=/y") 2) = []
      \/ exists c t, snd (_splitnetloc (lit "//www.example.org?x=/y") 2) = c :: t
                     /\ c ∈ lit "/?#").
Proof.
  apply (splitnetloc_partition (lit "//www.example.org?x=/y") 2).
  vm_compute. split; discriminate.
Defined.

(** * What [urlsplit] guarantees of its components *)

Lemma split1_snd_subset c s x : x ∈ snd (Py.split1 c s) -> x ∈ s.
Proof.
  unfold Py.split1. destruct (Py.index c s) as [k|]; simpl.
  - intros Hx. rewrite <- (take_drop (S k) s). apply elem_of_app. by right.
  - by intros ?%elem_of_nil.
Qed.

Lemma split_after_scheme_components sch rest af r :
  split_after_scheme sch rest af = Ok r ->
  s_scheme r = sch
  /\ (forall c, c ∈ lit "/?#" -> c ∉ s_netloc r)
  /\ (ch "?" ∉ s_path r)
  /\ (af = true -> (ch "#" ∉ s_path r) /\ (ch "#" ∉ s_query r))
  /\ (af = false -> s_fragment r = []).
Proof.
  unfold split_after_scheme.
  set (nu := if Py.eqb (Py.slice_to rest 2) (lit "//") then _ else _).
  assert (Hnu : match nu with
                | Ok (nl, _) => forall c, c ∈ lit "/?#" -> (c ∉ nl)
                | Raise _ => True
                end).
  { unfold nu. destruct (Py.eqb (Py.slice_to rest 2) (lit "//")) eqn:Hs.
    - apply eqb_eq, slice_to_2_slashes in Hs as [t ->].
      destruct (authority_exists t) as (auth & tail & -> & Ha & Ht).
      rewrite splitnetloc_authority by done.
      by destruct (unbalanced_brackets auth).
    - intros c _. apply not_elem_of_nil. }
  destruct nu as [[nl url]|e]; [|done].
  set (uf := if af && Py.contains (ch "#") url then _ else _).
  assert (Huf : (af = true -> (ch "#" ∉ fst uf)) /\ (af = false -> snd uf = [])).
  { unfold uf. destruct af; simpl.
    - destruct (Py.contains (ch "#") url) eqn:Hc.
      + split; [|done]. intros _. apply split1_fst_free.
      + split; [|done]. intros _. by apply contains_false.
    - by split. }
  destruct uf as [url1 frag]. simpl in Huf.
  set (uq := if Py.contains (ch "?") url1 then _ else _).
  assert (Huq : (ch "?" ∉ fst uq)
                /\ (forall x, x ∈ fst uq -> x ∈ url1)
                /\ (forall x, x ∈ snd uq -> x ∈ url1)).
  { unfold uq. destruct (Py.contains (ch "?") url1) eqn:Hc.
    - split_and!; [apply split1_fst_free | apply split1_fst_subset
                   | apply split1_snd_subset].
    - split_and!; [by apply contains_false | done |].
      simpl. by intros x ?%elem_of_nil. }
  destruct uq as [url2 qu]. simpl in Huq. destruct Huq as (Hq1 & Hq2 & Hq3).
  intros [= <-]. simpl. split_and!; try done.
  - intros ->. destruct Huf as [Hf _]. specialize (Hf eq_refl).
    split; intros Hin; apply Hf; auto.
  - by destruct Huf.
Qed.

(** The components that [urlsplit] returns are free of the delimiters
    that end them: the authority has none of [/], [?], [#]; the path
    has no [?]; with fragments allowed neither path nor query has a
    [#], and without them the fragment is empty. *)
Theorem urlsplit_components_are_delimited url scheme af st r :
  cache_ok st ->
  fst (urlsplit url scheme af st) = Ok r ->
  (forall c, c ∈ lit "/?#" -> c ∉ s_netloc r)
  /\ (ch "?" ∉ s_path r)
  /\ (af = true -> (ch "#" ∉ s_path r) /\ (ch "#" ∉ s_query r))
  /\ (af = false -> s_fragment r = []).
Proof.
  intros Hok. rewrite (proj1 (urlsplit_cached st url scheme af Hok)).
  rewrite urlsplit_compute_scheme_split. intros Hr.
  by destruct (split_after_scheme_components _ _ _ _ Hr) as (_ & ?).
Qed.

Lemma urlsplit_components_are_delimited_witness :
  let r := mkSplit (lit "http") (lit "h:80") (lit "/p;x") (lit "q?r") (lit "f#g") in
  (forall c, c ∈ lit "/?#" -> c ∉ s_netloc r)
  /\ (ch "?" ∉ s_path r)
  /\ (true = true -> (ch "#" ∉ s_path r) /\ (ch "#" ∉ s_query r))
  /\ (true = false -> s_fragment r = []).
Proof.
  apply (urlsplit_components_are_delimited
           (PStr (lit "http://h:80/p;x?q?r#f#g")) (PStr []) true initial_state).
  - apply cache_ok_initial.
  - rewrite (proj1 (urlsplit_cached _ _ _ _ cache_ok_initial)).
    vm_compute. reflexivity.
Defined.

Lemma lower_scheme_chars :
  forallb (fun c => Py.contains (Py.lower_char c) scheme_chars
                    && negb ((65 <=? Py.lower_char c) && (Py.lower_char c <=? 90))%N)
          scheme_chars = true.
Proof. vm_compute. reflexivity. Qed.

(** The scheme that [urlsplit] returns is the default it was given, or
    the non-empty text before the first [:] of the URL, all of scheme
    characters, in lower case: then it has no upper-case letter and
    only scheme characters. *)
Theorem urlsplit_scheme_is_default_or_lowercase url scheme af st r :
  cache_ok st ->
  fst (urlsplit url scheme af st) = Ok r ->
  s_scheme r = chars scheme
  \/ exists p rest,
       chars url = p ++ ch ":" :: rest /\ p ≠ [] /\ (ch ":" ∉ p)
       /\ (forall c, c ∈ p -> c ∈ scheme_chars)
       /\ s_scheme r = Py.lower p
       /\ (forall c, c ∈ s_scheme r ->
             c ∈ scheme_chars /\ ~ (65 <= c <= 90)%N).
Proof.
  intros Hok. rewrite (proj1 (urlsplit_cached st url scheme af Hok)).
  rewrite urlsplit_compute_scheme_split. intros Hr.
  destruct (split_after_scheme_components _ _ _ _ Hr) as (-> & _).
  unfold scheme_split.
  destruct (Z.gtb_spec (Py.find (ch ":") (chars url) 0) 0) as [Hi|]; [|by left].
  destruct (decide (ch ":" ∈ chars url)) as [Hc|Hc];
    [|rewrite find0_none in Hi by done; lia].
  destruct (elem_split_first _ _ Hc) as (p & rest & Hurl & Hp).
  rewrite Hurl. rewrite Hurl in Hi.
  rewrite find0_first in * by done. rewrite slice_to_app.
  destruct (_ || _) eqn:Hcond; [|by left].
  right. exists p, rest. simpl.
  assert (Hall : forall c, c ∈ p -> c ∈ scheme_chars).
  { apply orb_true_iff in Hcond as [->%eqb_eq|Hall].
    - intros c Hin. apply contains_elem.
      assert (H := eq_refl : forallb (fun c => Py.contains c scheme_chars)
                               (lit "http") = true).
      rewrite forallb_forall in H. by apply H, list_elem_of_In.
    - rewrite forallb_forall in Hall. intros c Hin.
      by apply contains_elem, Hall, list_elem_of_In. }
  split_and!; try done.
  - intros ->. unfold Py.len in Hi. simpl in Hi. lia.
  - intros c Hin. unfold Py.lower in Hin.
    apply list_elem_of_fmap in Hin as (c0 & -> & Hc0).
    pose proof lower_scheme_chars as Hl. rewrite forallb_forall in Hl.
    specialize (Hl c0 ltac:(by apply list_elem_of_In, Hall)).
    apply andb_true_iff in Hl as [Hl1 Hl2].
    split; [by apply contains_elem|].
    apply negb_true_iff, andb_false_iff in Hl2.
    intros [H1 H2]. destruct Hl2 as [Hl2|Hl2];
      [apply N.leb_gt in Hl2 | apply N.leb_gt in Hl2]; lia.
Qed.

Lemma urlsplit_scheme_is_default_or_lowercase_witness :
  s_scheme (mkSplit (lit "svn+ssh") (lit "h") (lit "/p") [] [])
    = chars (PStr (lit "ftp"))
  \/ exists p rest,
       chars (PStr (lit "SVN+ssh://h/p")) = p ++ ch ":" :: rest
       /\ p ≠ [] /\ (ch ":" ∉ p)
       /\ (forall c, c ∈ p -> c ∈ scheme_chars)
       /\ s_scheme (mkSplit (lit "svn+ssh") (lit "h") (lit "/p") [] [])
          = Py.lower p
       /\ (forall c,
             c ∈ s_scheme (mkSplit (lit "svn+ssh") (lit "h") (lit "/p") [] []) ->
             c ∈ scheme_chars /\ ~ (65 <= c <= 90)%N).
Proof.
  apply (urlsplit_scheme_is_default_or_lowercase
           (PStr (lit "SVN+ssh://h/p")) (PStr (lit "ftp")) true initial_state).
  - apply cache_ok_initial.
  - rewrite (proj1 (urlsplit_cached _ _ _ _ cache_ok_initial)).
    vm_compute. reflexivity.
Defined.

(** * [urlparse] and [urlunparse] on the parameters *)

Lemma splitparams_rejoin u :
  ch ";" ∈ u ->
  (snd (_splitparams u) ≠ [] ->
   fst (_splitparams u) ++ lit ";" ++ snd (_splitparams u) = u)
  /\ (snd (_splitparams u) = [] ->
      fst (_splitparams u) = u \/ fst (_splitparams u) ++ lit ";" = u).
Proof.
  intros Hsemi.
  destruct (decide (ch "/" ∈ u)) as [Hs|Hs].
  - destruct (elem_split_last _ _ Hs) as (a & seg & -> & Hseg).
    destruct (decide (ch ";" ∈ seg)) as [Hq|Hq].
    + destruct (elem_split_first _ _ Hq) as (b & q & -> & Hb).
      rewrite (splitparams_last_segment a _ b q Hseg eq_refl Hb). simpl.
      split.
      * intros _. by rewrite <- app_assoc.
      * intros ->. right. by rewrite <- app_assoc.
    + rewrite (splitparams_no_semicolon a seg Hseg Hq). simpl.
      split; [done | by left].
  - destruct (elem_split_first _ _ Hsemi) as (b & q & -> & Hb).
    rewrite (splitparams_no_slash b q Hs Hb). simpl.
    split; [done|]. intros ->. by right.
Qed.

(** Putting a parse result back together gives what the split result
    gives, whenever the parameters are not empty: [urlunparse] joins
    path and params with the [;] that [urlparse] cut them at.  With
    empty parameters the path is the split path, or the split path
    short of a final [;]. *)
Theorem urlunparse_parse_of_split r :
  (params (parse_of_split r) ≠ [] ->
   urlunparse (parse_of_split r) = urlunsplit r)
  /\ (params (parse_of_split r) = [] ->
      path (parse_of_split r) = s_path r
      \/ path (parse_of_split r) ++ lit ";" = s_path r).
Proof.
  destruct r as [sch nl pth qu fr]. unfold parse_of_split.
  destruct (Py.mem sch uses_params && Py.contains (ch ";") pth) eqn:Hc.
  - apply andb_true_iff in Hc as [_ Hc]. apply contains_elem in Hc.
    destruct (splitparams_rejoin pth Hc) as [H1 H2].
    destruct (_splitparams pth) as [p q]. simpl in *. split.
    + intros Hq. apply eqb_false in Hq as Hq'. rewrite Hq'. simpl.
      by rewrite (H1 Hq).
    + done.
  - simpl. split; [done | by left].
Qed.

Lemma urlunparse_parse_of_split_witness :
  urlunparse (parse_of_split
                (mkSplit (lit "http") (lit "a") (lit "/b;c/d;e;f") (lit "q") []))
  = urlunsplit (mkSplit (lit "http") (lit "a") (lit "/b;c/d;e;f") (lit "q") []).
Proof.
  apply (proj1 (urlunparse_parse_of_split
                  (mkSplit (lit "http") (lit "a") (lit "/b;c/d;e;f")
                           (lit "q") []))).
  vm_compute. discriminate.
Defined.

(** * [urldefrag] *)

Lemma split1_snd_skip c p s :
  c ∉ p -> c ∈ s -> snd (Py.split1 c (p ++ s)) = snd (Py.split1 c s).
Proof.
  intros Hp Hs. destruct (elem_split_first _ _ Hs) as (a & b & -> & Ha).
  rewrite (split1_app c a b Ha), app_assoc, split1_app; [done|].
  intros [?|?]%elem_of_app; done.
Qed.

Lemma split_after_scheme_fragment sch rest r :
  split_after_scheme sch rest true = Ok r ->
  ch "#" ∈ rest ->
  s_fragment r = snd (Py.split1 (ch "#") rest).
Proof.
  unfold split_after_scheme. intros Hr Hin.
  set (nu := if Py.eqb (Py.slice_to rest 2) (lit "//") then _ else _) in Hr.
  assert (Hnu : match nu with
                | Ok (_, url) =>
                    ch "#" ∈ url
                    /\ snd (Py.split1 (ch "#") url)
                       = snd (Py.split1 (ch "#") rest)
                | Raise _ => True
                end).
  { unfold nu. destruct (Py.eqb (Py.slice_to rest 2) (lit "//")) eqn:Hs; [|done].
    apply eqb_eq, slice_to_2_slashes in Hs as [t ->].
    destruct (authority_exists t) as (auth & tail & -> & Ha & Ht).
    rewrite splitnetloc_authority by done.
    destruct (unbalanced_brackets auth); [done|].
    assert (Hpre : ch "#" ∉ lit "//" ++ auth).
    { intros [?|?]%elem_of_app.
      - by apply (proj1 (contains_false (ch "#") (lit "//")) eq_refl).
      - by apply (Ha (ch "#") ltac:(apply delims_elem; tauto)). }
    rewrite app_assoc in Hin. rewrite app_assoc.
    apply elem_of_app in Hin as [?|Hin]; [done|].
    split; [done|]. symmetry. by apply split1_snd_skip. }
  destruct nu as [[nl url]|e]; [|done]. destruct Hnu as [Hu Heq].
  apply contains_elem in Hu. rewrite Hu in Hr. simpl in Hr.
  destruct (Py.split1 (ch "#") url) as [url1 frag]. simpl in Heq.
  by destruct (if Py.contains (ch "?") url1 then _ else _); injection Hr as <-.
Qed.

Lemma scheme_split_rest_fragment url sch :
  ch "#" ∈ url ->
  ch "#" ∈ snd (scheme_split url sch)
  /\ snd (Py.split1 (ch "#") (snd (scheme_split url sch)))
     = snd (Py.split1 (ch "#") url).
Proof.
  intros Hin. unfold scheme_split.
  destruct (Z.gtb_spec (Py.find (ch ":") url 0) 0) as [Hi|]; [|done].
  destruct (decide (ch ":" ∈ url)) as [Hc|Hc];
    [|rewrite find0_none in Hi by done; lia].
  destruct (elem_split_first _ _ Hc) as (p & rest & -> & Hp).
  rewrite find0_first by done. rewrite slice_to_app, slice_from_app_cons.
  destruct (_ || _) eqn:Hcond; [|done]. simpl.
  assert (Hall : forallb (fun c => Py.contains c scheme_chars) p = true).
  { apply orb_true_iff in Hcond as [->%eqb_eq|Hall]; [reflexivity | done]. }
  assert (Hpre : ch "#" ∉ p ++ [ch ":"]).
  { intros [Hx|Hx]%elem_of_app.
    - rewrite forallb_forall in Hall.
      apply list_elem_of_In, Hall in Hx. discriminate Hx.
    - apply list_elem_of_singleton in Hx. discriminate Hx. }
  replace (p ++ ch ":" :: rest) with ((p ++ [ch ":"]) ++ rest) in *
    by (by rewrite <- app_assoc).
  apply elem_of_app in Hin as [?|Hin]; [done|].
  split; [done|]. symmetry. by apply split1_snd_skip.
Qed.

Lemma urlunsplit_has_no_hash sch nl pth qu :
  ch "#" ∉ sch -> ch "#" ∉ nl -> ch "#" ∉ pth -> ch "#" ∉ qu ->
  ch "#" ∉ urlunsplit (mkSplit sch nl pth qu []).
Proof.
  intros H1 H2 H3 H4. apply contains_false. unfold urlunsplit.
  apply contains_false in H1, H2, H3, H4.
  assert (Hl1 : Py.contains (ch "#") (lit "//") = false) by reflexivity.
  assert (Hl2 : Py.contains (ch "#") (lit "/") = false) by reflexivity.
  assert (Hl3 : Py.contains (ch "#") (lit ":") = false) by reflexivity.
  assert (Hl4 : Py.contains (ch "#") (lit "?") = false) by reflexivity.
  change (Py.eqb [] []) with true. cbv zeta. cbn [negb].
  repeat case_match;
    rewrite ?contains_app, ?H1, ?H2, ?H3, ?H4, ?Hl1, ?Hl2, ?Hl3, ?Hl4;
    reflexivity.
Qed.

Lemma urldefrag_unfold url st :
  urldefrag url st =
  if Py.contains (ch "#") url then
    match urlparse (PStr url) (PStr []) true st with
    | (Ok p, st') =>
        (Ok (urlunparse (mkParse (scheme p) (netloc p) (path p) (params p)
                                 (query p) []),
             fragment p), st')
    | (Raise e, st') => (Raise e, st')
    end
  else (Ok (url, []), st).
Proof.
  unfold urldefrag. destruct (Py.contains (ch "#") url); [|done].
  unfold mbind, M_bind, bind.
  by destruct (urlparse (PStr url) (PStr []) true st) as [[p|e] st'].
Qed.

Lemma splitparams_subset u x :
  (x ∈ fst (_splitparams u) -> x ∈ u) /\ (x ∈ snd (_splitparams u) -> x ∈ u).
Proof.
  unfold _splitparams, Py.slice_to, Py.slice_from.
  repeat case_match; simpl; split;
    try done; try (by intros ?%elem_of_nil);
    intros Hx; (by eapply subseteq_take) || (by eapply subseteq_drop).
Qed.

(** [urldefrag] returns a URL without [#] unchanged, with an empty
    fragment and without touching the cache; from a URL with a [#] it
    returns, unless the authority is rejected, the text after the first
    [#] as the fragment and a URL that has no [#] left. *)
Theorem urldefrag_cuts_at_first_hash url st :
  (ch "#" ∉ url -> urldefrag url st = (Ok (url, []), st))
  /\ (forall a f d frag,
        cache_ok st -> url = a ++ ch "#" :: f -> ch "#" ∉ a ->
        fst (urldefrag url st) = Ok (d, frag) ->
        frag = f /\ ch "#" ∉ d).
Proof.
  split.
  - intros Hn. rewrite urldefrag_unfold.
    apply contains_false in Hn. by rewrite Hn.
  - intros a f d frag Hok -> Ha. rewrite urldefrag_unfold, contains_middle.
    destruct (urlparse_cached st (PStr (a ++ ch "#" :: f)) (PStr []) true Hok)
      as [Hp _].
    destruct (urlparse _ _ _ st) as [[p|e] st']; simpl in *; [|done].
    intros [= <- <-]. symmetry in Hp. unfold urlparse_compute in Hp.
    destruct (urlsplit_compute (a ++ ch "#" :: f) [] true) as [r|] eqn:Hr;
      [|done].
    injection Hp as <-. rewrite urlsplit_compute_scheme_split in Hr.
    assert (Hin : ch "#" ∈ a ++ ch "#" :: f) by set_solver.
    destruct (scheme_split_rest_fragment _ [] Hin) as [Hin' Heq].
    pose proof (split_after_scheme_fragment _ _ _ Hr Hin') as Hfrag.
    rewrite Heq, split1_app in Hfrag by done. simpl in Hfrag.
    destruct (split_after_scheme_components _ _ _ _ Hr)
      as (Hsch & Hnl & _ & Hhash & _).
    destruct (Hhash eq_refl) as [Hpath Hquery].
    assert (Hscheme : ch "#" ∉ s_scheme r).
    { rewrite Hsch. unfold scheme_split.
      destruct (_ >? 0); [|apply not_elem_of_nil].
      destruct (_ || _) eqn:Hcond; [|apply not_elem_of_nil]. simpl.
      assert (Hall : forallb (fun c => Py.contains c scheme_chars)
                       (Py.slice_to (a ++ ch "#" :: f)
                          (Py.find (ch ":") (a ++ ch "#" :: f) 0)) = true).
      { apply orb_true_iff in Hcond as [Hh|Hall]; [|done].
        apply eqb_eq in Hh. by rewrite Hh. }
      intros Hx. unfold Py.lower in Hx.
      apply list_elem_of_fmap in Hx as (c0 & Hc0 & Hx).
      rewrite forallb_forall in Hall.
      apply list_elem_of_In, Hall in Hx.
      pose proof lower_scheme_chars as Hl. rewrite forallb_forall in Hl.
      apply existsb_exists in Hx as (y & Hy & ->%N.eqb_eq).
      apply Hl in Hy. rewrite <- Hc0 in Hy. discriminate Hy. }
    destruct r as [sch nl pth qu fr].
    cbn [s_scheme s_netloc s_path s_query s_fragment] in *.
    unfold parse_of_split, urlunparse.
    set (pp := if Py.mem sch uses_params && Py.contains (ch ";") pth
               then _splitparams pth else (pth, [])).
    assert (Hpp : (ch "#" ∉ fst pp) /\ (ch "#" ∉ snd pp)).
    { unfold pp. destruct (_ && _); cbn [fst snd].
      - split; intros Hx; apply Hpath;
          [by apply (proj1 (splitparams_subset pth _))
          |by apply (proj2 (splitparams_subset pth _))].
      - split; [done | apply not_elem_of_nil]. }
    destruct pp as [p q]. cbn [fst snd] in Hpp. destruct Hpp as [Hp1 Hp2].
    cbn [scheme netloc path params query fragment].
    split; [done|].
    apply urlunsplit_has_no_hash; try done.
    + by apply Hnl, delims_elem; tauto.
    + destruct (negb (Py.eqb q [])); [|done].
      intros [?|Hx]%elem_of_app; [done|].
      change (lit ";" ++ q) with (ch ";" :: q) in Hx.
      apply elem_of_cons in Hx as [Hx|?]; [discriminate Hx | done].
Qed.

Lemma urldefrag_cached st url :
  cache_ok st -> fst (urldefrag url st) = urldefrag_compute url.
Proof.
  intros Hok. rewrite urldefrag_unfold. unfold urldefrag_compute.
  destruct (Py.contains (ch "#") url); [|done].
  destruct (urlparse_cached st (PStr url) (PStr []) true Hok) as [Hp _].
  destruct (urlparse _ _ _ st) as [[p|e] st']; simpl in *; by rewrite <- Hp.
Qed.

Lemma urldefrag_cuts_at_first_hash_witness :
  urldefrag (lit "http://a/b?c") initial_state
    = (Ok (lit "http://a/b?c", []), initial_state)
  /\ (lit "frag#x" = lit "frag#x" /\ ch "#" ∉ lit "http://a/b?c").
Proof.
  split.
  - apply (proj1 (urldefrag_cuts_at_first_hash (lit "http://a/b?c")
                    initial_state)).
    apply contains_false. reflexivity.
  - apply (proj2 (urldefrag_cuts_at_first_hash (lit "http://a/b?c#frag#x")
                    initial_state)
             (lit "http://a/b?c") (lit "frag#x")
             (lit "http://a/b?c") (lit "frag#x") cache_ok_initial eq_refl).
    + apply contains_false. reflexivity.
    + rewrite (urldefrag_cached _ _ cache_ok_initial). vm_compute. reflexivity.
Defined.

(** * [unquote] and [unquote_plus] *)

Lemma split_absent c s : c ∉ s -> Py.split c s = [s].
Proof.
  induction s as [|x t IH]; [done|]. intros [Hx Ht]%not_elem_of_cons. simpl.
  destruct (N.eqb_spec x c) as [->|_]; [done|]. by rewrite (IH Ht).
Qed.

Lemma unquote_bytes_no_percent s : ch "%" ∉ s -> unquote_bytes s = s.
Proof. intros Hs. unfold unquote_bytes. by rewrite split_absent. Qed.

Lemma utf8_encode_ascii u :
  forallb (fun c => c <? 128)%N u = true -> utf8_encode u = u.
Proof.
  unfold utf8_encode. induction u as [|c u IH]; [done|].
  cbn [forallb]. intros [Hc Hu]%andb_true_iff.
  cbn [fmap list_fmap concat]. unfold utf8_encode_char at 1.
  rewrite Hc. cbn [app]. f_equal. by apply IH.
Qed.

(** The pieces of [asciire_split] make up the text again, and every run
    is made of ASCII characters of the text. *)
Lemma asciire_split_spec s :
  fst (asciire_split s)
    ++ concat ((fun p => fst p ++ snd p) <$> snd (asciire_split s)) = s
  /\ Forall (fun p => forallb (fun c => c <? 128)%N (fst p) = true
                      /\ forall x, x ∈ fst p -> x ∈ s)
            (snd (asciire_split s)).
Proof.
  induction s as [|c t [IH1 IH2]]; [by split|]. simpl.
  assert (IH2' : Forall (fun p => forallb (fun c => c <? 128)%N (fst p) = true
                            /\ forall x, x ∈ fst p -> x ∈ c :: t)
                   (snd (asciire_split t))).
  { eapply Forall_impl; [exact IH2|]. intros p [? Hs]. split; [done|].
    intros x Hx. right. by apply Hs. }
  destruct (asciire_split t) as [b0 rest]. simpl in *.
  destruct (N.ltb_spec c 128) as [Hc|Hc].
  - destruct b0 as [|y b0]; [destruct rest as [|[m sep] rest]|]; simpl in *.
    + subst t. split; [done|]. constructor; [|done]. simpl.
      split; [by rewrite (proj2 (N.ltb_lt _ _) Hc)|].
      intros x ->%list_elem_of_singleton. left.
    + subst t. split; [done|].
      inversion IH2' as [|? ? [Hm Hsub] Hrest]; subst.
      constructor; [|done]. simpl. split.
      * by rewrite (proj2 (N.ltb_lt _ _) Hc).
      * intros x [->|Hx]%elem_of_cons; [left | by apply Hsub].
    + subst t. split; [done|]. constructor; [|done]. simpl. split.
      * by rewrite (proj2 (N.ltb_lt _ _) Hc).
      * intros x ->%list_elem_of_singleton. left.
  - simpl. split; [by rewrite IH1 | done].
Qed.

Section UnquoteFacts.
Context `{Codecs}.

Lemma unquote_runs_no_percent encoding errors bits :
  ascii_transparent encoding ->
  Forall (fun p => forallb (fun c => c <? 128)%N (fst p) = true
                   /\ ch "%" ∉ fst p) bits ->
  unquote_runs encoding errors bits
  = Ok (concat ((fun p => fst p ++ snd p) <$> bits)).
Proof.
  intros Henc. induction 1 as [|[run sep] bits [Hascii Hpct] _ IH]; [done|].
  simpl in *. unfold unquote_to_bytes.
  rewrite (utf8_encode_ascii run Hascii), (unquote_bytes_no_percent run Hpct).
  rewrite (Henc errors run Hascii), IH. by rewrite <- app_assoc.
Qed.

(** [unquote] leaves a unicode text without [%] as it is, under every
    ASCII-compatible encoding and every error policy; and it rejects a
    byte string with a byte above 127 whatever the encoding and the
    policy, since it first decodes it as ASCII. *)
Theorem unquote_without_percent encoding errors :
  (forall u, ascii_transparent encoding -> ch "%" ∉ u ->
             unquote (PUni u) encoding errors = Ok (PUni u))
  /\ (forall b, forallb (fun c => c <? 128)%N b = false ->
                exists msg,
                  unquote (PStr b) encoding errors = Raise (UnicodeError msg)).
Proof.
  split.
  - intros u Henc Hpct. unfold unquote.
    destruct (asciire_split_spec u) as [Hcat Hruns].
    destruct (asciire_split u) as [b0 bits]. simpl in *.
    rewrite (unquote_runs_no_percent encoding errors bits Henc).
    + by rewrite Hcat.
    + eapply Forall_impl; [exact Hruns|]. intros p [? Hs]. split; [done|].
      intros Hx. by apply Hpct, Hs.
  - intros b Hb. unfold unquote, ascii_decode. rewrite Hb. by eexists.
Qed.

(** [unquote_plus] turns every [+] of a unicode text without [%] into a
    space and changes nothing else. *)
Theorem unquote_plus_without_percent encoding errors u :
  ascii_transparent encoding -> ch "%" ∉ u ->
  unquote_plus (PUni u) encoding errors
  = Ok (PUni (replace_char (ch "+") (ch " ") u)).
Proof.
  intros Henc Hpct. unfold unquote_plus. simpl.
  apply unquote_without_percent; [done|].
  unfold replace_char. intros Hin.
  apply list_elem_of_fmap in Hin as (c & Hc & Hin).
  destruct (N.eqb_spec c (ch "+")); [discriminate Hc|]. by subst.
Qed.
End UnquoteFacts.

Lemma latin1_ascii_transparent encoding :
  @ascii_transparent latin1_registry encoding.
Proof. by intros errors b _. Qed.

Lemma unquote_without_percent_witness :
  @unquote latin1_registry (PUni (lit "a+b/c")) (lit "latin-1") (lit "strict")
  = Ok (PUni (lit "a+b/c")).
Proof.
  apply (proj1 (@unquote_without_percent latin1_registry
                  (lit "latin-1") (lit "strict"))).
  - intros errors b _. reflexivity.
  - apply contains_false. reflexivity.
Defined.

Lemma unquote_plus_without_percent_witness :
  @unquote_plus latin1_registry (PUni (lit "a+b c")) (lit "latin-1")
                (lit "replace")
  = Ok (PUni (replace_char (ch "+") (ch " ") (lit "a+b c"))).
Proof.
  apply (@unquote_plus_without_percent latin1_registry).
  - intros errors b _. reflexivity.
  - apply contains_false. reflexivity.
Defined.

(** * Query strings *)

Lemma split_pieces_subset c s p x : p ∈ Py.split c s -> x ∈ p -> x ∈ s.
Proof.
  revert p. induction s as [|y t IH]; intros p; simpl.
  - intros ->%list_elem_of_singleton. done.
  - destruct (N.eqb_spec y c) as [->|Hne].
    + intros [->|Hp]%elem_of_cons Hx; [by apply elem_of_nil in Hx|].
      right. by eapply IH.
    + destruct (Py.split c t) as [|q r] eqn:E.
      * intros ->%list_elem_of_singleton Hx. by apply list_elem_of_singleton in Hx as ->; left.
      * intros [->|Hp]%elem_of_cons Hx.
        -- apply elem_of_cons in Hx as [->|Hx]; [left|].
           right. apply (IH q); [left | done].
        -- right. apply (IH p); [by right | done].
Qed.

Lemma query_fields_subset qs p x :
  p ∈ (s1 ← Py.split (ch "&") qs; Py.split (ch ";") s1) -> x ∈ p -> x ∈ qs.
Proof.
  intros (s1 & Hp & Hs1)%list_elem_of_bind Hx.
  eapply split_pieces_subset; [exact Hs1|].
  eapply split_pieces_subset; [exact Hp | exact Hx].
Qed.

Lemma query_fields_nonempty qs :
  (s1 ← Py.split (ch "&") qs; Py.split (ch ";") s1) ≠ [].
Proof.
  pose proof (split_nonempty (ch "&") qs) as H1.
  destruct (Py.split (ch "&") qs) as [|s1 r]; [done|].
  cbn [mbind list_bind]. pose proof (split_nonempty (ch ";") s1) as H2.
  destruct (Py.split (ch ";") s1); [done|]. done.
Qed.

Section QueryFacts.
Context `{Codecs}.

Lemma parse_qs_fold_lookup (l : list (text * text))
    (d : gmap text (list text)) name :
  foldl (fun (parsed_result : gmap text (list text)) '(n, value) =>
           match parsed_result !! n with
           | Some vs => <[n := vs ++ [value]]> parsed_result
           | None => <[n := [value]]> parsed_result
           end) d l !! name
  = match values_of name l with
    | [] => d !! name
    | vs => Some (default [] (d !! name) ++ vs)
    end.
Proof.
  revert d. induction l as [|[n v] l IH]; intros d; [done|].
  cbn [foldl]. rewrite IH. unfold values_of. cbn [omap list_omap fst snd].
  destruct (decide (n = name)) as [->|Hne].
  - fold (values_of name l).
    destruct (d !! name) as [vs|] eqn:Hd; rewrite lookup_insert_eq; simpl;
      destruct (values_of name l); simpl; by rewrite <- ?app_assoc.
  - fold (values_of name l).
    destruct (d !! n); by rewrite lookup_insert_ne.
Qed.

(** [parse_qs] groups the pairs of [parse_qsl] by name and loses none:
    under each name the dictionary holds the values of that name in the
    order of the query, and it has no entry for a name without values;
    it fails exactly as [parse_qsl] does. *)
Theorem parse_qs_groups_parse_qsl qs keep_blank_values strict_parsing
    encoding errors :
  match parse_qsl qs keep_blank_values strict_parsing encoding errors with
  | Ok l =>
      exists d,
        parse_qs qs keep_blank_values strict_parsing encoding errors = Ok d
        /\ forall name,
             d !! name = match values_of name l with
                         | [] => None
                         | vs => Some vs
                         end
  | Raise e =>
      parse_qs qs keep_blank_values strict_parsing encoding errors = Raise e
  end.
Proof.
  unfold parse_qs.
  destruct (parse_qsl qs keep_blank_values strict_parsing encoding errors)
    as [l|e]; [|done].
  eexists. split; [done|]. intros name.
  rewrite parse_qs_fold_lookup, lookup_empty. simpl.
  by destruct (values_of name l).
Qed.
End QueryFacts.


(** * [quote] and [quote_plus] on byte strings *)

Lemma hex_digit_upper d : (d < 16)%N -> upper_hex (hex_digit d).
Proof.
  intros Hd. unfold upper_hex, hex_digit.
  destruct (N.ltb_spec d 10); lia.
Qed.

Lemma hex_digits_upper fuel n acc c :
  (forall x, x ∈ acc -> upper_hex x) ->
  c ∈ hex_digits fuel n acc -> upper_hex c.
Proof.
  revert n acc. induction fuel as [|k IH]; intros n acc Hacc; simpl.
  - apply Hacc.
  - destruct (N.ltb_spec n 16) as [Hn|Hn].
    + intros [->|Hc]%elem_of_cons; [by apply hex_digit_upper | by apply Hacc].
    + apply IH. intros x [->|Hx]%elem_of_cons; [|by apply Hacc].
      apply hex_digit_upper. by apply N.mod_lt.
Qed.

Lemma format_pct_02X_chars n c :
  c ∈ format_pct_02X n -> c = ch "%" \/ upper_hex c.
Proof.
  unfold format_pct_02X.
  change (lit "%" ++ ?x) with (ch "%" :: x).
  intros [->|Hc]%elem_of_cons; [by left|]. right.
  assert (Hd : forall x, x ∈ hex_digits (S (N.to_nat n)) n [] -> upper_hex x).
  { intros x. apply hex_digits_upper. by intros y ?%elem_of_nil. }
  destruct (_ <? 2)%nat; [|by apply Hd].
  apply elem_of_cons in Hc as [->|Hc]; [|by apply Hd].
  left. change (ch "0") with 48%N. lia.
Qed.

Lemma quoted_byte_chars safe b c :
  c ∈ quoted_byte safe b -> c = b \/ c = ch "%" \/ upper_hex c.
Proof.
  unfold quoted_byte. case_bool_decide.
  - intros ->%list_elem_of_singleton. by left.
  - intros Hc. right. by apply (format_pct_02X_chars b).
Qed.

Lemma Quoter_getitem_ok safe q b :
  quoter_ok safe q ->
  fst (Quoter_getitem q b) = quoted_byte (q_safe q) b
  /\ quoter_ok safe (snd (Quoter_getitem q b)).
Proof.
  intros [Hs Hm]. unfold Quoter_getitem.
  destruct (q_memo q !! b) as [res|] eqn:E; simpl.
  - split; [by apply Hm | done].
  - split; [done|]. split; [done|]. simpl. intros b' r.
    destruct (decide (b = b')) as [->|Hne].
    + rewrite lookup_insert_eq. by intros [= <-].
    + rewrite lookup_insert_ne by done. apply Hm.
Qed.

Lemma quote_chars_ok safe q bs :
  quoter_ok safe q ->
  fst (quote_chars q bs) = quoted_byte (q_safe q) <$> bs
  /\ quoter_ok safe (snd (quote_chars q bs)).
Proof.
  revert q. induction bs as [|c r IH]; intros q Hq; [done|]. simpl.
  destruct (Quoter_getitem_ok safe q c Hq) as [H1 H2].
  destruct (Quoter_getitem q c) as [x q1]. simpl in *.
  destruct (IH q1 H2) as [H3 H4].
  destruct (quote_chars q1 r) as [xs q2]. simpl in *.
  split; [|done]. rewrite H1, H3.
  assert (Hsafe : q_safe q1 = q_safe q).
  { destruct Hq as [-> _]. by destruct H2 as [-> _]. }
  by rewrite Hsafe.
Qed.

Lemma Quoter_init_ok safe : quoter_ok safe (Quoter_init safe).
Proof. split; [done|]. intros b r Hl. simpl in Hl. by rewrite lookup_empty in Hl. Qed.

Lemma quoters_ok_initial : quoters_ok initial_state.
Proof. intros safe q Hl. simpl in Hl. by rewrite lookup_empty in Hl. Qed.

Lemma elem_of_concat (x : N) (ls : list text) :
  x ∈ concat ls -> exists l, x ∈ l /\ l ∈ ls.
Proof.
  induction ls as [|l ls IH]; simpl; [by intros ?%elem_of_nil|].
  intros [Hx|Hx]%elem_of_app.
  - exists l. split; [done | left].
  - destruct (IH Hx) as (l' & ? & ?). exists l'. split; [done | by right].
Qed.

Lemma quote_from_bytes_chars bs safe st r :
  quoters_ok st ->
  fst (quote_from_bytes (PStr bs) safe st) = Ok r ->
  forall c, c ∈ chars r -> c ∈ bs \/ c = ch "%" \/ upper_hex c.
Proof.
  intros Hok. unfold quote_from_bytes.
  destruct (Py.eqb bs []).
  { intros [= <-] c Hc. by apply elem_of_nil in Hc. }
  destruct (Py.eqb _ []).
  { unfold ascii_decode. destruct (forallb _ bs); simpl; [|done].
    intros [= <-] c Hc. by left. }
  set (safe' := normalize_safe safe).
  set (q := match _safe_quoters st !! safe' with
            | Some q => q
            | None => Quoter_init safe'
            end).
  assert (Hq : quoter_ok safe' q).
  { unfold q. destruct (_safe_quoters st !! safe') eqn:E;
      [by eapply Hok | apply Quoter_init_ok]. }
  destruct (quote_chars_ok safe' q bs Hq) as [Hout _].
  destruct (quote_chars q bs) as [out q']. simpl in *.
  intros [= <-] c Hc. simpl in Hc. subst out.
  apply elem_of_concat in Hc as (x & Hc & Hx).
  apply list_elem_of_fmap in Hx as (b & -> & Hb).
  apply quoted_byte_chars in Hc as [->|Hc]; [by left | by right].
Qed.

Section QuoteFacts.
Context `{Codecs}.

(** [quote] of a byte string only writes characters of the string, [%],
    digits and the letters [A]-[F]. *)
Theorem quote_bytes_alphabet bs safe encoding errors st r :
  quoters_ok st ->
  fst (quote (PStr bs) safe encoding errors st) = Ok r ->
  forall c, c ∈ chars r ->
    c ∈ bs \/ c = ch "%" \/ (48 <= c <= 57)%N \/ (65 <= c <= 70)%N.
Proof.
  intros Hok. unfold quote.
  case_bool_decide; [done|]. case_bool_decide; [done|].
  apply quote_from_bytes_chars, Hok.
Qed.

(** The result of [quote_plus] on a byte string never contains a space. *)
Theorem quote_plus_bytes_has_no_space bs safe encoding errors st r :
  quoters_ok st ->
  fst (quote_plus (PStr bs) safe encoding errors st) = Ok r ->
  ch " " ∉ chars r.
Proof.
  intros Hok. unfold quote_plus. cbn [chars].
  destruct (Py.contains (ch " ") bs) eqn:Hsp; cbn [negb].
  - unfold mbind, M_bind, bind.
    destruct (quote (PStr bs) _ encoding errors st) as [[q|e] st1]; [|done].
    cbn [fst mret M_ret ret]. intros [= <-].
    assert (Hr : ch " " ∉ replace_char (ch " ") (ch "+") (chars q)).
    { unfold replace_char. intros Hin.
      apply list_elem_of_fmap in Hin as (c & Hc & _).
      destruct (N.eqb_spec c (ch " ")); [discriminate Hc | by subst]. }
    by destruct q.
  - intros Hq Hin. apply contains_false in Hsp.
    destruct (quote_bytes_alphabet _ _ _ _ _ _ Hok Hq _ Hin)
      as [?|[Hc|[Hc|Hc]]]; [done|discriminate Hc| |];
      change (ch " ") with 32%N in Hc; lia.
Qed.
End QuoteFacts.

Lemma reachable_quoters_ok st : reachable st -> quoters_ok st.
Proof.
  induction 1 as [|st url sch af _ IH|st bs safe _ IH|st _ IH].
  - apply quoters_ok_initial.
  - unfold urlsplit. destruct (_parse_cache st !! _); [done|].
    assert (Hc : quoters_ok
                   (if Z.of_nat (size (_parse_cache st)) >=? MAX_CACHE_SIZE
                    then snd (clear_cache st) else st)).
    { destruct (_ >=? _); [|done]. intros safe q Hl. simpl in Hl.
      by rewrite lookup_empty in Hl. }
    by destruct (urlsplit_compute _ _ _).
  - unfold quote_from_bytes. destruct bs as [b|u]; [|done].
    destruct (Py.eqb b []); [done|].
    destruct (Py.eqb _ []); [by destruct (ascii_decode b)|].
    set (safe' := normalize_safe safe).
    set (q := match _safe_quoters st !! safe' with
              | Some q => q
              | None => Quoter_init safe'
              end).
    assert (Hq : quoter_ok safe' q).
    { unfold q. destruct (_safe_quoters st !! safe') eqn:E;
        [by eapply IH | apply Quoter_init_ok]. }
    destruct (quote_chars_ok safe' q b Hq) as [_ Hq'].
    destruct (quote_chars q b) as [out q']. simpl in *.
    intros s q0 Hl. simpl in Hl.
    destruct (decide (safe' = s)) as [<-|Hne].
    + rewrite lookup_insert_eq in Hl. by injection Hl as <-.
    + rewrite lookup_insert_ne in Hl by done. by eapply IH.
  - intros safe q Hl. simpl in Hl. by rewrite lookup_empty in Hl.
Qed.

Lemma quote_bytes_alphabet_witness :
  ch "/" ∈ lit "a/b" \/ ch "/" = ch "%"
  \/ (48 <= ch "/" <= 57)%N \/ (65 <= ch "/" <= 70)%N.
Proof.
  apply (@quote_bytes_alphabet latin1_registry (lit "a/b") (PUni (lit "/"))
           None None initial_state (PUni (lit "a/b")) quoters_ok_initial).
  - vm_compute. reflexivity.
  - apply contains_elem. reflexivity.
Defined.

Lemma quote_plus_bytes_has_no_space_witness : ch " " ∉ lit "a+b".
Proof.
  apply (@quote_plus_bytes_has_no_space latin1_registry (lit "a b")
           (PUni []) None None initial_state (PUni (lit "a+b"))
           quoters_ok_initial).
  vm_compute. reflexivity.
Defined.

(** * [unwrap] *)

Section StripFacts.
Variable isspace : N -> bool.

Lemma lstrip_head s c t : lstrip isspace s = c :: t -> isspace c = false.
Proof.
  induction s as [|x s IH]; simpl; [done|].
  destruct (isspace x) eqn:E; [done|]. by intros [= <- _].
Qed.

Lemma rstrip_space_head s c t :
  (forall c' t', s = c' :: t' -> isspace c' = false) ->
  rstrip_space isspace s = c :: t -> isspace c = false.
Proof.
  destruct s as [|x s]; simpl; [done|]. intros Hx.
  specialize (Hx x s eq_refl).
  destruct (rstrip_space isspace s); rewrite ?Hx; by intros [= <- _].
Qed.

Lemma rstrip_space_last s c :
  last (rstrip_space isspace s) = Some c -> isspace c = false.
Proof.
  induction s as [|x s IH]; simpl; [done|].
  destruct (rstrip_space isspace s) as [|y r] eqn:E.
  - destruct (isspace x) eqn:Hx; simpl; [done|]. by intros [= <-].
  - intros Hl. apply IH. by rewrite last_cons_cons in Hl.
Qed.

Lemma strip_clean s :
  (forall c t, strip isspace s = c :: t -> isspace c = false)
  /\ (forall c, last (strip isspace s) = Some c -> isspace c = false).
Proof.
  unfold strip. split.
  - intros c t. apply rstrip_space_head. intros c' t'. apply lstrip_head.
  - apply rstrip_space_last.
Qed.

(** What [unwrap] returns neither begins nor ends with a character
    that [strip] removes. *)
Theorem unwrap_is_stripped url :
  (forall c t, unwrap isspace url = c :: t -> isspace c = false)
  /\ (forall c, last (unwrap isspace url) = Some c -> isspace c = false).
Proof.
  unfold unwrap. repeat case_match; apply strip_clean.
Qed.
End StripFacts.

Lemma unwrap_is_stripped_witness :
  (fun c => (c =? 32)%N) (ch "h") = false.
Proof.
  apply (proj1 (unwrap_is_stripped (fun c => (c =? 32)%N)
                  (lit " <URL: http://a/b > "))
           (ch "h") (lit "ttp://a/b")).
  vm_compute. reflexivity.
Defined.

(** * The dot-segment loop *)

Lemma Forall_removelast {A} (P : A -> Prop) (l : list A) :
  Forall P l -> Forall P (removelast l).
Proof.
  induction 1 as [|x l Hx Hl IH]; [done|]. simpl.
  destruct l; [done|]. by constructor.
Qed.

(** Whatever the segments, the stack that the loop of [urljoin] builds
    holds no [.] and no [..]. *)
Theorem resolved_path_has_no_dot_segment segments :
  Forall (fun seg => seg ≠ lit "." /\ seg ≠ lit "..")
         (fold_left resolve_step segments []).
Proof.
  assert (Hgen : forall acc,
            Forall (fun seg => seg ≠ lit "." /\ seg ≠ lit "..") acc ->
            Forall (fun seg => seg ≠ lit "." /\ seg ≠ lit "..")
                   (fold_left resolve_step segments acc)).
  { induction segments as [|seg segs IH]; intros acc Hacc; [done|].
    simpl. apply IH. unfold resolve_step.
    destruct (Py.eqb seg (lit "..")) eqn:E1.
    - unfold pop. destruct acc; [done|]. by apply Forall_removelast.
    - destruct (Py.eqb seg (lit ".")) eqn:E2; [done|].
      apply Forall_app. split; [done|]. constructor; [|done].
      by split; apply eqb_false. }
  by apply Hgen.
Qed.

(** * [urlsplit] after [urlunsplit] *)

Lemma scheme_chars_no_colon sch :
  forallb (fun c => Py.contains c scheme_chars) sch = true -> ch ":" ∉ sch.
Proof.
  rewrite forallb_forall. intros Hall Hin.
  apply list_elem_of_In, Hall in Hin. discriminate Hin.
Qed.

Lemma scheme_split_recognised sch body dflt :
  sch ≠ [] ->
  forallb (fun c => Py.contains c scheme_chars) sch = true ->
  Py.lower sch = sch ->
  scheme_split (sch ++ ch ":" :: body) dflt = (sch, body).
Proof.
  intros Hne Hall Hlow. unfold scheme_split.
  rewrite find0_first by by apply scheme_chars_no_colon.
  assert (Hlen : (Py.len sch >? 0) = true).
  { apply Z.gtb_lt. destruct sch; [done|]. unfold Py.len. simpl. lia. }
  rewrite Hlen, slice_to_app, slice_from_app_cons, Hall, orb_true_r.
  by rewrite Hlow.
Qed.

Lemma slice_to_1_cons c t : Py.slice_to (c :: t) 1 = [c].
Proof.
  unfold Py.slice_to. rewrite clamp_in; [done|].
  unfold Py.len. simpl. lia.
Qed.

Lemma tail_splits pth qu fr :
  ch "?" ∉ pth -> ch "#" ∉ pth -> ch "#" ∉ qu ->
  let tail := pth ++ (if negb (Py.eqb qu []) then lit "?" ++ qu else [])
                  ++ (if negb (Py.eqb fr []) then lit "#" ++ fr else []) in
  (if true && Py.contains (ch "#") tail
   then Py.split1 (ch "#") tail else (tail, []))
  = (pth ++ (if negb (Py.eqb qu []) then lit "?" ++ qu else []), fr)
  /\ (if Py.contains (ch "?")
           (pth ++ (if negb (Py.eqb qu []) then lit "?" ++ qu else []))
      then Py.split1 (ch "?")
             (pth ++ (if negb (Py.eqb qu []) then lit "?" ++ qu else []))
      else (pth ++ (if negb (Py.eqb qu []) then lit "?" ++ qu else []), []))
     = (pth, qu).
Proof.
  intros Hq Hh1 Hh2. cbv zeta. cbn [andb].
  set (u := pth ++ (if negb (Py.eqb qu []) then lit "?" ++ qu else [])).
  assert (Hu : ch "#" ∉ u).
  { unfold u. destruct (negb (Py.eqb qu [])).
    - intros [?|Hx]%elem_of_app; [done|].
      change (lit "?" ++ qu) with (ch "?" :: qu) in Hx.
      apply elem_of_cons in Hx as [Hx|?]; [discriminate Hx | done].
    - by rewrite app_nil_r. }
  split.
  - rewrite app_assoc. fold u.
    destruct (Py.eqb fr []) eqn:Hfr; cbn [negb].
    + apply eqb_eq in Hfr as ->. rewrite app_nil_r.
      apply contains_false in Hu. by rewrite Hu.
    + change (lit "#" ++ fr) with (ch "#" :: fr).
      by rewrite contains_middle, split1_app.
  - unfold u. destruct (Py.eqb qu []) eqn:Hqu; cbn [negb].
    + apply eqb_eq in Hqu as ->. rewrite app_nil_r.
      apply contains_false in Hq. by rewrite Hq.
    + change (lit "?" ++ qu) with (ch "?" :: qu).
      by rewrite contains_middle, split1_app.
Qed.

Lemma tail_begins_with_delimiter pth qu fr :
  pth = [] \/ (exists t, pth = ch "/" :: t) ->
  let tail := pth ++ (if negb (Py.eqb qu []) then lit "?" ++ qu else [])
                  ++ (if negb (Py.eqb fr []) then lit "#" ++ fr else []) in
  tail = [] \/ exists c t, tail = c :: t /\ c ∈ lit "/?#".
Proof.
  intros [->|[t ->]]; cbv zeta.
  - destruct (negb (Py.eqb qu [])); [|destruct (negb (Py.eqb fr []))].
    + right. eexists _, _. split; [reflexivity|]. apply delims_elem. tauto.
    + right. eexists _, _. split; [reflexivity|]. apply delims_elem. tauto.
    + by left.
  - right. eexists _, _. split; [reflexivity|]. apply delims_elem. tauto.
Qed.

Lemma tail_not_double_slash pth qu fr :
  Py.slice_to pth 2 ≠ lit "//" ->
  let tail := pth ++ (if negb (Py.eqb qu []) then lit "?" ++ qu else [])
                  ++ (if negb (Py.eqb fr []) then lit "#" ++ fr else []) in
  Py.slice_to tail 2 ≠ lit "//".
Proof.
  intros Hp. cbv zeta. intros Ht. apply Hp.
  apply slice_to_2_slashes in Ht as [t Ht]. apply slice_to_2_slashes.
  destruct pth as [|x [|y p]].
  - exfalso. simpl in Ht.
    destruct (negb (Py.eqb qu [])); [discriminate Ht|].
    destruct (negb (Py.eqb fr [])); discriminate Ht.
  - exfalso. simpl in Ht.
    destruct (negb (Py.eqb qu [])); [discriminate Ht|].
    destruct (negb (Py.eqb fr [])); discriminate Ht.
  - exists p. simpl in Ht. change (lit "//" ++ t) with (ch "/" :: ch "/" :: t) in Ht.
    by injection Ht as -> -> _.
Qed.

(** Splitting what [urlunsplit] composed gives the components back:
    for a scheme of lower-case scheme characters, an authority free of
    [/], [?], [#] with balanced brackets, a path without [?] or [#]
    that does not begin with [//] when there is no authority and is
    empty or begins with [/] when an authority is written, and a query
    without [#]. *)
Theorem urlsplit_urlunsplit_roundtrip sch nl pth qu fr dflt :
  sch ≠ [] ->
  forallb (fun c => Py.contains c scheme_chars) sch = true ->
  Py.lower sch = sch ->
  (forall c, c ∈ lit "/?#" -> c ∉ nl) ->
  unbalanced_brackets nl = false ->
  ch "?" ∉ pth -> ch "#" ∉ pth -> ch "#" ∉ qu ->
  (nl = [] -> Py.slice_to pth 2 ≠ lit "//") ->
  (nl ≠ [] \/ Py.mem sch uses_netloc = true ->
   pth = [] \/ exists t, pth = ch "/" :: t) ->
  urlsplit_compute (urlunsplit (mkSplit sch nl pth qu fr)) dflt true
  = Ok (mkSplit sch nl pth qu fr).
Proof.
  intros Hne Hall Hlow Hnl Hbr Hq Hh1 Hh2 Hds Hsl.
  set (tail := pth ++ (if negb (Py.eqb qu []) then lit "?" ++ qu else [])
                   ++ (if negb (Py.eqb fr []) then lit "#" ++ fr else [])).
  set (A := negb (Py.eqb nl [])
            || (negb (Py.eqb sch []) && Py.mem sch uses_netloc
                && negb (Py.eqb (Py.slice_to pth 2) (lit "//")))).
  assert (HAp : A = true -> pth = [] \/ exists t, pth = ch "/" :: t).
  { intros HA. apply Hsl. unfold A in HA.
    apply orb_true_iff in HA as [HA|HA].
    - left. by apply negb_true_iff, eqb_false in HA.
    - right. apply andb_true_iff in HA as [HA _].
      by apply andb_true_iff in HA as [_ HA]. }
  assert (Hun : urlunsplit (mkSplit sch nl pth qu fr)
                = sch ++ ch ":" :: (if A then lit "//" ++ nl else []) ++ tail).
  { unfold urlunsplit. fold A. apply eqb_false in Hne as Hne'.
    rewrite Hne'. cbn [negb]. unfold tail.
    destruct A eqn:HA.
    - assert (Hp : negb (Py.eqb pth [])
                   && negb (Py.eqb (Py.slice_to pth 1) (lit "/")) = false).
      { destruct (HAp eq_refl) as [->|[t ->]]; [reflexivity|].
        rewrite slice_to_1_cons. change (lit "/") with [ch "/"].
        by rewrite eqb_refl, andb_false_r. }
      rewrite Hp.
      destruct (negb (Py.eqb qu [])); destruct (negb (Py.eqb fr []));
        rewrite <- ?app_assoc; simpl; by rewrite ?app_nil_r, <- ?app_assoc.
    - destruct (negb (Py.eqb qu [])); destruct (negb (Py.eqb fr []));
        rewrite <- ?app_assoc; simpl; by rewrite ?app_nil_r, <- ?app_assoc. }
  rewrite Hun, urlsplit_compute_scheme_split.
  rewrite scheme_split_recognised by done. cbn [fst snd].
  destruct (tail_splits pth qu fr Hq Hh1 Hh2) as [Hf Hqs]. fold tail in Hf.
  unfold split_after_scheme.
  destruct A eqn:HA.
  - pose proof (tail_begins_with_delimiter pth qu fr (HAp eq_refl)) as Ht.
    fold tail in Ht.
    assert (Hs : Py.eqb (Py.slice_to ((lit "//" ++ nl) ++ tail) 2) (lit "//")
                 = true).
    { apply eqb_eq, slice_to_2_slashes. exists (nl ++ tail).
      by rewrite app_assoc. }
    rewrite Hs, <- app_assoc, splitnetloc_authority, Hbr by done.
    by rewrite Hf, Hqs.
  - assert (Hnl0 : nl = []).
    { unfold A in HA. apply orb_false_iff in HA as [HA _].
      by apply negb_false_iff, eqb_eq in HA. }
    subst nl. cbn [app].
    pose proof (tail_not_double_slash pth qu fr (Hds eq_refl)) as Ht.
    fold tail in Ht. apply eqb_false in Ht. rewrite Ht.
    by rewrite Hf, Hqs.
Qed.

Lemma urlsplit_urlunsplit_roundtrip_witness :
  urlsplit_compute
    (urlunsplit (mkSplit (lit "http") (lit "u@[::1]:80") (lit "/a//b;p")
                         (lit "x=1?y") (lit "top#x")))
    [] true
  = Ok (mkSplit (lit "http") (lit "u@[::1]:80") (lit "/a//b;p")
                (lit "x=1?y") (lit "top#x")).
Proof.
  apply urlsplit_urlunsplit_roundtrip.
  - discriminate.
  - reflexivity.
  - reflexivity.
  - intros c Hc. apply contains_false.
    apply delims_elem in Hc as [->|[->| ->]]; reflexivity.
  - reflexivity.
  - apply contains_false. reflexivity.
  - apply contains_false. reflexivity.
  - apply contains_false. reflexivity.
  - discriminate.
  - intros _. right. by exists (lit "a//b;p").
Defined.

(** * [parse_qsl] on a well-formed query *)

Lemma split_app_cons c x s : c ∉ x -> Py.split c (x ++ c :: s) = x :: Py.split c s.
Proof.
  induction x as [|y x IH]; intros Hx; simpl.
  - by rewrite N.eqb_refl.
  - apply not_elem_of_cons in Hx as [Hy Hx].
    destruct (N.eqb_spec y c); [congruence|]. by rewrite (IH Hx).
Qed.

Lemma split_join c (l : list text) :
  l ≠ [] -> Forall (fun p => c ∉ p) l -> Py.split c (Py.join [c] l) = l.
Proof.
  intros Hne Hl. induction Hl as [|x l Hx Hl IH]; [done|].
  destruct l as [|y r].
  - simpl. by apply split_absent.
  - change (Py.join [c] (x :: y :: r)) with (x ++ c :: Py.join [c] (y :: r)).
    rewrite split_app_cons by done. by rewrite IH.
Qed.

Lemma bind_singletons (l : list text) :
  Forall (fun p => ch ";" ∉ p) l ->
  (s1 ← l; Py.split (ch ";") s1) = l.
Proof.
  induction 1 as [|x l Hx _ IH]; [done|].
  cbn [mbind list_bind]. change (list_bind _ _ _ l) with (s1 ← l; Py.split (ch ";") s1).
  by rewrite IH, split_absent.
Qed.

Section QueryRoundTrip.
Context `{Codecs}.

Lemma parse_fields_of_pairs q (l : list (text * text)) keep strict enc errs :
  ascii_transparent enc ->
  Forall (fun p => (ch "=" ∉ fst p) /\ (ch "%" ∉ fst p) /\ (ch "%" ∉ snd p)
                   /\ (snd p ≠ [] \/ keep = true)) l ->
  parse_fields (PUni q) keep strict enc errs
               ((fun p => fst p ++ lit "=" ++ snd p) <$> l)
  = Ok ((fun p => (replace_char (ch "+") (ch " ") (fst p),
                   replace_char (ch "+") (ch " ") (snd p))) <$> l).
Proof.
  intros Henc. induction 1 as [|[k v] l (Hk & Hk' & Hv & Hkeep) _ IH]; [done|].
  cbn [fmap list_fmap parse_fields fst snd] in *.
  change (list_fmap _ _ ?f l) with (f <$> l). rewrite IH.
  unfold parse_field.
  change (k ++ lit "=" ++ v) with (k ++ ch "=" :: v).
  assert (Hne : Py.eqb (k ++ ch "=" :: v) [] = false).
  { apply eqb_false. by destruct k. }
  rewrite Hne, contains_middle, split1_app by done. cbn [andb same_kind chars].
  assert (Hcond : negb (Py.eqb v []) || keep = true).
  { destruct Hkeep as [Hv0| ->]; [|apply orb_true_r].
    apply eqb_false in Hv0. by rewrite Hv0. }
  rewrite Hcond.
  assert (Hrep : forall s, ch "%" ∉ s ->
            unquote (PUni (replace_char (ch "+") (ch " ") s)) enc errs
            = Ok (PUni (replace_char (ch "+") (ch " ") s))).
  { intros s Hs. apply unquote_without_percent; [done|].
    unfold replace_char. intros Hin.
    apply list_elem_of_fmap in Hin as (c & Hc & Hin).
    destruct (N.eqb_spec c (ch "+")); [discriminate Hc | by subst]. }
  by rewrite !Hrep.
Qed.

(** [parse_qsl] reads back the pairs of a query written as
    [k1=v1&k2=v2&...]: when no name or value contains [&], [;] or [%],
    no name contains [=], and blank values are kept or absent, it
    returns the pairs in order, with each [+] read as a space. *)
Theorem parse_qsl_of_query (l : list (text * text)) keep strict enc errs :
  ascii_transparent enc ->
  l ≠ [] ->
  Forall (fun p => (forall c, c ∈ lit "&;%" -> (c ∉ fst p) /\ (c ∉ snd p))
                   /\ (ch "=" ∉ fst p)
                   /\ (snd p ≠ [] \/ keep = true)) l ->
  parse_qsl (PUni (query_of l)) keep strict enc errs
  = Ok ((fun p => (replace_char (ch "+") (ch " ") (fst p),
                   replace_char (ch "+") (ch " ") (snd p))) <$> l).
Proof.
  intros Henc Hne Hl. unfold parse_qsl, query_of. cbn [chars].
  assert (Hch : forall c, c ∈ lit "&;%" -> c ≠ ch "=" ->
            Forall (fun f => c ∉ f)
                   ((fun p => fst p ++ lit "=" ++ snd p) <$> l)).
  { intros c Hc Hceq. apply Forall_fmap. eapply Forall_impl; [exact Hl|].
    intros [k v] (Hp & _). cbn [fst snd] in *.
    destruct (Hp c Hc) as [Hk Hv].
    change (k ++ lit "=" ++ v) with (k ++ ch "=" :: v).
    intros [?|[?|?]%elem_of_cons]%elem_of_app; done. }
  change (lit "&") with [ch "&"].
  rewrite split_join.
  - rewrite bind_singletons.
    + apply parse_fields_of_pairs; [done|].
      eapply Forall_impl; [exact Hl|]. intros [k v] (Hp & Hk & Hb).
      cbn [fst snd] in *.
      destruct (Hp (ch "%") ltac:(apply contains_elem; reflexivity)).
      by split_and!.
    + apply Hch; [apply contains_elem; reflexivity | discriminate].
  - by destruct l.
  - apply Hch; [apply contains_elem; reflexivity | discriminate].
Qed.
End QueryRoundTrip.

Lemma parse_qsl_of_query_witness :
  @parse_qsl latin1_registry
    (PUni (query_of [(lit "q", lit "a+b"); (lit "lang", lit "en")]))
    false true (lit "latin-1") (lit "strict")
  = Ok [(lit "q", lit "a b"); (lit "lang", lit "en")].
Proof.
  apply (@parse_qsl_of_query latin1_registry
           [(lit "q", lit "a+b"); (lit "lang", lit "en")]).
  - intros errors b _. reflexivity.
  - discriminate.
  - assert (Hfree : forall k v,
              Py.contains (ch "&") k = false -> Py.contains (ch ";") k = false ->
              Py.contains (ch "%") k = false -> Py.contains (ch "&") v = false ->
              Py.contains (ch ";") v = false -> Py.contains (ch "%") v = false ->
              forall c, c ∈ lit "&;%" -> (c ∉ k) /\ (c ∉ v)).
    { intros k v H1 H2 H3 H4 H5 H6 c Hc.
      change (lit "&;%") with [ch "&"; ch ";"; ch "%"] in Hc.
      rewrite !elem_of_cons, elem_of_nil in Hc.
      destruct Hc as [->|[->|[->|[]]]]; split; by apply contains_false. }
    constructor; [|constructor; [|constructor]]; cbn [fst snd];
      (split_and!;
       [by apply Hfree | apply contains_false; reflexivity | left; discriminate]).
Defined.

(** * [parse_qsl] on a query without [=] *)

Lemma split_head_prefix c d f t :
  c ∉ f -> d ≠ c ->
  exists p tl, Py.split c (f ++ d :: t) = (f ++ d :: p) :: tl.
Proof.
  intros Hf Hd. induction f as [|y f IH]; simpl.
  - destruct (N.eqb_spec d c); [done|].
    pose proof (split_nonempty c t).
    destruct (Py.split c t) as [|p r]; [done|]. by exists p, r.
  - apply not_elem_of_cons in Hf as [Hy Hf].
    destruct (N.eqb_spec y c); [congruence|].
    destruct (IH Hf) as (p & tl & ->). by exists p, tl.
Qed.

(** The first field of a query: the text before its first [&] or [;]. *)
Lemma query_first_field qs f rest :
  qs = f ++ rest -> ch "&" ∉ f -> ch ";" ∉ f ->
  rest = [] \/ (exists c t, rest = c :: t /\ (c = ch "&" \/ c = ch ";")) ->
  exists tl, (s1 ← Py.split (ch "&") qs; Py.split (ch ";") s1) = f :: tl.
Proof.
  intros -> Ha Hs [->|(c & t & -> & [->| ->])].
  - rewrite app_nil_r, split_absent by done. cbn [mbind list_bind].
    rewrite split_absent by done. by eexists.
  - rewrite split_app_cons by done. cbn [mbind list_bind].
    rewrite split_absent by done. by eexists.
  - destruct (split_head_prefix (ch "&") (ch ";") f t Ha ltac:(discriminate))
      as (p & tl & ->).
    cbn [mbind list_bind]. rewrite split_app_cons by done. by eexists.
Qed.

Section QueryWithoutEquals.
Context `{Codecs}.

(** On a query without any [=], strict parsing raises the bad-field
    error for the first field, the text before the first [&] or [;]
    (the whole query when it has neither, the empty query included),
    with that field's [repr] in the message; lenient parsing that drops
    blank values returns no pair at all. *)
Theorem parse_qsl_without_equals qs keep_blank_values encoding errors :
  ch "=" ∉ chars qs ->
  (forall f rest,
     chars qs = f ++ rest -> ch "&" ∉ f -> ch ";" ∉ f ->
     rest = [] \/ (exists c t, rest = c :: t /\ (c = ch "&" \/ c = ch ";")) ->
     parse_qsl qs keep_blank_values true encoding errors
     = Raise (ValueError
                (message (lit "bad query field: "
                          ++ repr_text (same_kind qs f)))))
  /\ parse_qsl qs false false encoding errors = Ok [].
Proof.
  intros Hno. unfold parse_qsl. split.
  - intros f rest Hqs Ha Hs Hrest.
    destruct (query_first_field _ f rest Hqs Ha Hs Hrest) as [tl ->].
    cbn [parse_fields]. unfold parse_field.
    assert (Hf : Py.contains (ch "=") f = false).
    { apply contains_false. intros Hin. apply Hno. rewrite Hqs.
      apply elem_of_app. by left. }
    by rewrite andb_false_r, Hf.
  - pose proof (fun p => query_fields_subset (chars qs) p (ch "=")) as Hsub.
    set (pairs := s1 ← Py.split (ch "&") (chars qs); Py.split (ch ";") s1) in *.
    assert (Hfree : Forall (fun p => Py.contains (ch "=") p = false) pairs).
    { apply Forall_forall. intros p Hp. apply contains_false.
      intros Hx. by apply Hno, (Hsub p). }
    clearbody pairs. clear Hsub.
    induction Hfree as [|p rest Hp _ IH]; [done|].
    simpl. unfold parse_field. rewrite Hp, IH. simpl.
    by destruct (Py.eqb p []).
Qed.
End QueryWithoutEquals.

Lemma parse_qsl_without_equals_witness :
  @parse_qsl latin1_registry (PStr (lit "it's&b;c")) false true
             (lit "latin-1") (lit "replace")
  = Raise (ValueError
             (message (lit "bad query field: "
                       ++ repr_text (PStr (lit "it's"))))).
Proof.
  apply (proj1 (@parse_qsl_without_equals latin1_registry
                  (PStr (lit "it's&b;c")) false (lit "latin-1") (lit "replace")
                  ltac:(apply contains_false; reflexivity))
           (lit "it's") (lit "&b;c") eq_refl).
  - apply contains_false. reflexivity.
  - apply contains_false. reflexivity.
  - right. exists (ch "&"), (lit "b;c"). split; [reflexivity | by left].
Defined.

(** * Resolution: dot segments *)



























